(** * Scripter: the task store and the step sequencer of [ScriptBuilder.tsx]

    A shallow embedding of [taskReducer], of the [TaskProvider] sequencer
    (its two effects and [isCurrentChildComplete]) and of the [useTask]
    handle's [execute], followed by the properties of the design document
    that concern them.

    Modelling choices.
    - [TaskMap], a JS object used as a dictionary keyed by task id, is a
      [gmap string Task]; [state.tasks[id]] is the lookup [tasks state !! id]
      and the test [!task] is the test for [None]. This is the store of task
      records: what the tasks object holds as long as no id is one of the
      property names every object inherits from [Object.prototype]
      (["constructor"], ["toString"], ...), which ids built by
      [registerTask] never are. The module [Js] has the object itself: its
      lookup finds the inherited names, its records can lack fields and its
      reducer can throw; [reducer_refines] and [run_refines] relate the two.
    - JS numbers that hold step indices and timestamps are [Z].
    - [Date.now()], read inside the reducer, is the parameter [now].
    - [Math.random().toString(36).substring(2, 9)] is the parameter [random].
    - [dispatch] hands an action to React, which later folds it into the
      store with [taskReducer]; the provider model applies it at once, the
      handle model records what is dispatched, in order.

    The second half of the definitions covers the rest of the context (the
    queries, the registration effect of [useTask]) and the bodies that the
    leaf components [FileReader], [Fetch], [Shell] and [Prompt] hand to
    [execute], as computations in a small monad [Async], then the tasks
    object [Js] with the queries of the context and the provider over it,
    and [formatTable] of [Log]. *)

From stdpp Require Import gmap strings list fin_maps pretty.

Local Open Scope Z_scope.

(** ** Core types *)

Abbreviation TaskId := string (only parsing).

Inductive TaskStatus : Set := pending | running | completed | failed.

#[export] Instance TaskStatus_eq_dec : EqDecision TaskStatus.
Proof. solve_decision. Defined.

(** A JS [Error] object, kept by its message. *)
Inductive Error : Set := mkError (message : string).

#[export] Instance Error_eq_dec : EqDecision Error.
Proof. solve_decision. Defined.

Module Task.

Record t : Set := mk {
  id : TaskId;
  name : string;
  status : TaskStatus;
  error : option Error;
  startTime : option Z;
  endTime : option Z;
  parentId : option TaskId;
  childIds : list TaskId;
  index : Z
}.

(** [{ ...task, status: "running", startTime: now }] *)
Definition started (now : Z) (task : t) : t :=
  mk (id task) (name task) running (error task) (Some now) (endTime task)
     (parentId task) (childIds task) (index task).

(** [{ ...task, status: "completed", endTime: now }] *)
Definition finished (now : Z) (task : t) : t :=
  mk (id task) (name task) completed (error task) (startTime task) (Some now)
     (parentId task) (childIds task) (index task).

(** [{ ...task, status: "failed", error, endTime: now }] *)
Definition broken (now : Z) (err : Error) (task : t) : t :=
  mk (id task) (name task) failed (Some err) (startTime task) (Some now)
     (parentId task) (childIds task) (index task).

(** [{ ...task, parentId }] *)
Definition withParent (p : TaskId) (task : t) : t :=
  mk (id task) (name task) (status task) (error task) (startTime task)
     (endTime task) (Some p) (childIds task) (index task).

(** [{ ...parent, childIds: [...parent.childIds, id] }] *)
Definition withChild (c : TaskId) (parent : t) : t :=
  mk (id parent) (name parent) (status parent) (error parent)
     (startTime parent) (endTime parent) (parentId parent)
     (childIds parent ++ [c]) (index parent).

End Task.

Abbreviation Task := Task.t (only parsing).

(** ** State management *)

Record TaskState : Type := mkTaskState {
  tasks : gmap string Task;
  rootTaskIds : list TaskId;
  completedTaskIds : list TaskId
}.

Inductive TaskAction : Type :=
| REGISTER_TASK (task : Task)
| START_TASK (id : TaskId)
| COMPLETE_TASK (id : TaskId)
| FAIL_TASK (id : TaskId) (error : Error)
| SET_PARENT (id parentId : TaskId)
| CLEANUP_TASKS (currentIndex : Z).

(** JS truthiness of an optional string: [undefined] and [""] are falsy. *)
Definition truthy (s : option string) : bool :=
  match s with
  | Some v => negb (String.eqb v "")
  | None => false
  end.

(** The [reduce] over [Object.entries(state.tasks)] of [CLEANUP_TASKS]. *)
Definition filteredTasks (currentIndex : Z) (m : gmap string Task)
  : gmap string Task :=
  map_fold
    (fun id task acc =>
       if bool_decide (Task.index task <= currentIndex)
       then <[id := task]> acc else acc)
    ∅ m.

Definition taskReducer (now : Z) (state : TaskState) (action : TaskAction)
  : TaskState :=
  match action with
  | REGISTER_TASK task =>
      {| tasks := <[Task.id task := task]> (tasks state);
         rootTaskIds :=
           if truthy (Task.parentId task)
           then rootTaskIds state
           else rootTaskIds state ++ [Task.id task];
         completedTaskIds := completedTaskIds state |}
  | START_TASK id =>
      match tasks state !! id with
      | None => state
      | Some task =>
          {| tasks := <[id := Task.started now task]> (tasks state);
             rootTaskIds := rootTaskIds state;
             completedTaskIds := completedTaskIds state |}
      end
  | COMPLETE_TASK id =>
      match tasks state !! id with
      | None => state
      | Some task =>
          {| tasks := <[id := Task.finished now task]> (tasks state);
             rootTaskIds := rootTaskIds state;
             completedTaskIds := completedTaskIds state ++ [id] |}
      end
  | FAIL_TASK id err =>
      match tasks state !! id with
      | None => state
      | Some task =>
          {| tasks := <[id := Task.broken now err task]> (tasks state);
             rootTaskIds := rootTaskIds state;
             completedTaskIds := completedTaskIds state |}
      end
  | SET_PARENT id parentId =>
      match tasks state !! id, tasks state !! parentId with
      | Some task, Some parent =>
          {| tasks :=
               <[parentId := Task.withChild id parent]>
                 (<[id := Task.withParent parentId task]> (tasks state));
             rootTaskIds :=
               filter (fun tid => tid ≠ id) (rootTaskIds state);
             completedTaskIds := completedTaskIds state |}
      | _, _ => state
      end
  | CLEANUP_TASKS currentIndex =>
      let kept := filteredTasks currentIndex (tasks state) in
      {| tasks := kept;
         rootTaskIds :=
           filter (fun id => is_Some (kept !! id)) (rootTaskIds state);
         completedTaskIds := completedTaskIds state |}
  end.

(** The store [useReducer] starts from. *)
Definition initialState : TaskState :=
  {| tasks := ∅; rootTaskIds := []; completedTaskIds := [] |}.

(** ** The provider: context operations and the sequencer *)

(** A valid React element of [childrenArray], kept by a label. *)
Inductive ReactElement : Set := Step (label : string).

(** [childrenArray[i]] for a JS number [i]: [undefined] out of range. *)
Definition nodeAt (childrenArray : list ReactElement) (i : Z)
  : option ReactElement :=
  if bool_decide (0 <= i) then childrenArray !! Z.to_nat i else None.

Record Provider : Type := mkProvider {
  childrenArray : list ReactElement;
  state : TaskState;
  currentIndex : Z;
  (** the ref [previousCompletionState], a sparse [boolean[]] *)
  previousCompletionState : gmap Z bool
}.

Definition mount (children : list ReactElement) : Provider :=
  {| childrenArray := children; state := initialState; currentIndex := 0;
     previousCompletionState := ∅ |}.

Definition dispatch (now : Z) (action : TaskAction) (p : Provider) : Provider :=
  {| childrenArray := childrenArray p;
     state := taskReducer now (state p) action;
     currentIndex := currentIndex p;
     previousCompletionState := previousCompletionState p |}.

(** [Object.values(state.tasks).filter((task) => task.index === childIndex)] *)
Definition childTasks (st : TaskState) (childIndex : Z) : list Task :=
  filter (fun task => Task.index task = childIndex)
         (map_to_list (tasks st)).*2.

(** [state.completedTaskIds.includes(id)] *)
Definition includes (l : list TaskId) (id : TaskId) : bool :=
  bool_decide (id ∈ l).

(** The value [isComplete] computed by [isCurrentChildComplete]. *)
Definition isComplete (st : TaskState) (childIndex : Z) : bool :=
  bool_decide (0 < length (childTasks st childIndex))%nat
  && forallb
       (fun task =>
          includes (completedTaskIds st) (Task.id task)
          || bool_decide (Task.status task = completed))
       (childTasks st childIndex).

(** [isCurrentChildComplete]: the verdict and the ref after the call. *)
Definition isCurrentChildComplete (p : Provider) (childIndex : Z)
  : bool * gmap Z bool :=
  match nodeAt (childrenArray p) childIndex with
  | None => (true, previousCompletionState p)
  | Some _ =>
      let verdict := isComplete (state p) childIndex in
      (verdict, <[childIndex := verdict]> (previousCompletionState p))
  end.

(** The cleanup effect: [dispatch({ type: "CLEANUP_TASKS", currentIndex })]. *)
Definition cleanupEffect (now : Z) (p : Provider) : Provider :=
  dispatch now (CLEANUP_TASKS (currentIndex p)) p.

(** The progression effect. [previousComplete] is read from the ref after
    [isCurrentChildComplete] has run; an unset slot reads [undefined]. *)
Definition progressionEffect (p : Provider) : Provider :=
  let '(currentComplete, ref) := isCurrentChildComplete p (currentIndex p) in
  let previousComplete := default false (ref !! currentIndex p) in
  {| childrenArray := childrenArray p;
     state := state p;
     currentIndex :=
       if currentComplete && previousComplete
          && bool_decide (currentIndex p < Z.of_nat (length (childrenArray p)) - 1)
       then currentIndex p + 1 else currentIndex p;
     previousCompletionState := ref |}.

(** The id [`${currentIndex}-${random}`] and the task [registerTask] builds. *)
Definition newTaskId (currentIndex : Z) (random : string) : TaskId :=
  pretty currentIndex +:+ "-" +:+ random.

Definition newTask (currentIndex : Z) (random name : string)
    (parentId : option TaskId) : Task :=
  Task.mk (newTaskId currentIndex random) name pending None None None
          parentId [] currentIndex.

Definition registerTask (random name : string) (parentId : option TaskId)
    (p : Provider) : TaskId * Provider :=
  (newTaskId (currentIndex p) random,
   dispatch 0 (REGISTER_TASK (newTask (currentIndex p) random name parentId)) p).

(** What can happen to a mounted provider: a call of one of the context's
    mutators, or a run of one of the two effects. *)
Inductive Event : Type :=
| RegisterTask (random name : string) (parentId : option TaskId)
| StartTask (now : Z) (id : TaskId)
| CompleteTask (now : Z) (id : TaskId)
| FailTask (now : Z) (id : TaskId) (error : Error)
| SetParent (id parentId : TaskId)
| RunCleanup
| RunProgression.

Definition step (p : Provider) (ev : Event) : Provider :=
  match ev with
  | RegisterTask random name parentId => (registerTask random name parentId p).2
  | StartTask now id => dispatch now (START_TASK id) p
  | CompleteTask now id => dispatch now (COMPLETE_TASK id) p
  | FailTask now id err => dispatch now (FAIL_TASK id err) p
  | SetParent id parentId => dispatch 0 (SET_PARENT id parentId) p
  | RunCleanup => cleanupEffect 0 p
  | RunProgression => progressionEffect p
  end.

Definition run (p : Provider) (evs : list Event) : Provider :=
  foldl step p evs.

(** ** The task handle: [execute] of [useTask] *)

(** The JS values a body can resolve with or throw. A number is an integer
    below [10^21] in absolute value, which [String] prints in plain
    decimal. *)
Inductive JsValue : Set :=
| JsUndefined
| JsNull
| JsBoolean (b : bool)
| JsNumber (n : Z)
| JsString (s : string)
| JsError (e : Error).

(** [String(v)] *)
Definition toString (v : JsValue) : string :=
  match v with
  | JsUndefined => "undefined"
  | JsNull => "null"
  | JsBoolean b => if b then "true" else "false"
  | JsNumber n => pretty n
  | JsString s => s
  | JsError (mkError m) => "Error: " +:+ m
  end.

(** [error instanceof Error ? error : new Error(String(error))] *)
Definition normalizeError (thrown : JsValue) : Error :=
  match thrown with
  | JsError e => e
  | v => mkError (toString v)
  end.

(** How a promise ends. *)
Inductive Settled : Set :=
| Fulfilled (value : JsValue)
| Rejected (reason : JsValue).

(** What [execute] does, in order. *)
Inductive Effect : Type :=
| Dispatched (action : TaskAction)
| Awaited.

(** The id a dispatch made from the ref carries: a [null] ref is only ever
    used by the reducer as the property key ["null"], which no registered
    task has. *)
Definition refId (ref : option TaskId) : TaskId := default "null" ref.

(** [execute(fn)]. [taskIdRef] is [taskIdRef.current] at the call, [fn] is
    how the body ends ([None]: it never settles) and [taskIdRefLater] is
    [taskIdRef.current] as re-read after the [await]. The result is what was
    done and how the returned promise ends. *)
Definition execute (taskIdRef : option TaskId) (fn : option Settled)
    (taskIdRefLater : option TaskId) : list Effect * option Settled :=
  if negb (truthy taskIdRef)
  then ([], Some (Rejected (JsError (mkError "Task not initialized"))))
  else
    match fn with
    | None => ([Dispatched (START_TASK (refId taskIdRef)); Awaited], None)
    | Some (Fulfilled _) =>
        ([Dispatched (START_TASK (refId taskIdRef)); Awaited;
          Dispatched (COMPLETE_TASK (refId taskIdRefLater))],
         Some (Fulfilled JsUndefined))
    | Some (Rejected reason) =>
        ([Dispatched (START_TASK (refId taskIdRef)); Awaited;
          Dispatched (FAIL_TASK (refId taskIdRefLater) (normalizeError reason))],
         Some (Rejected reason))
    end.

(** The store once React has folded in what a handle dispatched. *)
Definition settle (now : Z) (st : TaskState) (done : list Effect) : TaskState :=
  foldl (fun acc e =>
           match e with
           | Dispatched a => taskReducer now acc a
           | Awaited => acc
           end) st done.

(** ** Scenarios and the vocabulary of the statements *)

(** The only task of step 0 registered, started and failed. *)
Definition failedOnce : Provider :=
  run (mount [Step "A"; Step "B"])
      [RegisterTask "k3j9x2a" "Shell: ls" None;
       StartTask 100 "0-k3j9x2a";
       FailTask 105 "0-k3j9x2a" (mkError "exit 1")].

(** A run that has moved on to step 1 and registered a task there. *)
Definition twoSteps : Provider :=
  run (mount [Step "A"; Step "B"])
      [RegisterTask "k3j9x2a" "FileReader: a" None;
       StartTask 100 "0-k3j9x2a";
       CompleteTask 105 "0-k3j9x2a";
       RunProgression;
       RunCleanup;
       RegisterTask "q8w1e5r" "FileReader: b" None].

(** The predicate in the words of the design document: the tasks of the step
    are not empty and each has status [completed]. *)
Definition allChildTasksCompleted (st : TaskState) (childIndex : Z) : bool :=
  bool_decide (0 < length (childTasks st childIndex))%nat
  && forallb (fun task => bool_decide (Task.status task = completed))
             (childTasks st childIndex).

(** A handle whose body is run twice: the first run completes the task, the
    second is still awaiting its body. *)
Definition rerunning : Provider :=
  run (mount [Step "A"; Step "B"])
      [RegisterTask "k3j9x2a" "Watch src" None;
       StartTask 100 "0-k3j9x2a";
       CompleteTask 105 "0-k3j9x2a";
       StartTask 110 "0-k3j9x2a"].

(** One task of step 0, completed; the progression effect has not run yet. *)
Definition firstReading : Provider :=
  run (mount [Step "A"; Step "B"])
      [RegisterTask "k3j9x2a" "Shell: ls" None;
       StartTask 100 "0-k3j9x2a";
       CompleteTask 105 "0-k3j9x2a"].

(** [ev] is a call [complete(tid)]. *)
Definition completes (tid : TaskId) (ev : Event) : bool :=
  match ev with
  | CompleteTask _ id => bool_decide (id = tid)
  | _ => false
  end.

(** What keeps step [currentIndex p] open: a task of that step, stored under
    its own id, that is not [completed] and was never completed. *)
Definition heldOpenBy (tid : TaskId) (p : Provider) : Prop :=
  0 <= currentIndex p
  /\ (tid ∉ completedTaskIds (state p))
  /\ exists task,
       tasks (state p) !! tid = Some task
       /\ Task.id task = tid
       /\ Task.index task = currentIndex p
       /\ Task.status task <> completed.

#[local] Arguments newTaskId : simpl never.

(** Closes the field-by-field goals about an updated task record. *)
Ltac by_fields := split_and?; (simpl; solve [done | congruence]).

(** [complete(id)] applied once per timestamp of [nows]. *)
Definition completeRepeatedly (id : TaskId) (nows : list Z) (st : TaskState)
  : TaskState :=
  foldl (fun acc now => taskReducer now acc (COMPLETE_TASK id)) st nows.

(** A parent task and a second task of the same step, both parentless. *)
Definition siblings : TaskState :=
  state (run (mount [Step "A"; Step "B"])
             [RegisterTask "p000000" "Prompt: name" None;
              RegisterTask "c000000" "Log" None;
              RegisterTask "q000000" "Prompt: age" None]).

(** The ids of the tasks that list [tid] among their [childIds]. *)
Definition parentsOf (st : TaskState) (tid : TaskId) : list TaskId :=
  (filter (fun kv => tid ∈ Task.childIds kv.2) (map_to_list (tasks st))).*1.

(** [id] has not been used: it names no task and is no task's child. *)
Definition unused (id : TaskId) (st : TaskState) : Prop :=
  tasks st !! id = None /\ parentsOf st id = [].

(** The stores the context operations lead to, when every [registerTask]
    draws an id that has not been used. *)
Inductive reachable : TaskState -> Prop :=
| reachable_initial :
    reachable initialState
| reachable_register st currentIndex random name parentId :
    reachable st ->
    unused (newTaskId currentIndex random) st ->
    reachable
      (taskReducer 0 st
         (REGISTER_TASK (newTask currentIndex random name parentId)))
| reachable_start st now id :
    reachable st -> reachable (taskReducer now st (START_TASK id))
| reachable_complete st now id :
    reachable st -> reachable (taskReducer now st (COMPLETE_TASK id))
| reachable_fail st now id err :
    reachable st -> reachable (taskReducer now st (FAIL_TASK id err))
| reachable_setParent st id parentId :
    reachable st -> reachable (taskReducer 0 st (SET_PARENT id parentId))
| reachable_cleanup st currentIndex :
    reachable st -> reachable (taskReducer 0 st (CLEANUP_TASKS currentIndex)).

(** Roots are tasks of the store, and no root is anybody's child. *)
Definition rootsApart (st : TaskState) : Prop :=
  (forall tid, tid ∈ rootTaskIds st -> is_Some (tasks st !! tid))
  /\ (forall tid, tid ∈ rootTaskIds st -> parentsOf st tid = []).

(** Two steps of a script whose second operation names its parent when it
    registers, as a nested operation does. *)
Definition nested : TaskState :=
  state (run (mount [Step "A"; Step "B"])
             [RegisterTask "p000000" "FileReader: a" None;
              RegisterTask "c000000" "Log" (Some "0-p000000")]).

(** ** [getTask] over the store of task records *)

(** [getTask]: [state.tasks[id]], for an id that is a key of the store or
    no inherited name; [Js.getTask] is the lookup in general. *)
Definition getTask (st : TaskState) (id : TaskId) : option Task :=
  tasks st !! id.

(** ** [useTask]: registration of the handle *)

(** The registration effect: [if (!taskIdRef.current) taskIdRef.current =
    registerTask(name, parentId)]. The ref and the provider after the run. *)
Definition useTaskEffect (random name : string) (parentId : option TaskId)
    (taskIdRef : option TaskId) (p : Provider) : option TaskId * Provider :=
  if negb (truthy taskIdRef)
  then let '(id, p') := registerTask random name parentId p in (Some id, p')
  else (taskIdRef, p).

(** The effect's cleanup: [taskIdRef.current = null]. *)
Definition useTaskCleanup (taskIdRef : option TaskId) : option TaskId := None.

(** What [useTask] returns beside [execute]: [taskId], [status], [error]. *)
Definition useTaskView (taskIdRef : option TaskId) (st : TaskState)
  : TaskId * option TaskStatus * option Error :=
  let task := if truthy taskIdRef then getTask st (refId taskIdRef) else None in
  (default "" taskIdRef, Task.status <$> task, task ≫= Task.error).

(** The provider once React has folded in what a handle dispatched. *)
Definition flush (now : Z) (p : Provider) (done : list Effect) : Provider :=
  {| childrenArray := childrenArray p;
     state := settle now (state p) done;
     currentIndex := currentIndex p;
     previousCompletionState := previousCompletionState p |}.

(** ** Vocabulary of the further statements *)

(** [ev] is a call of [registerTask]. *)
Definition registers (ev : Event) : bool :=
  match ev with
  | RegisterTask _ _ _ => true
  | _ => false
  end.

(** What holds of every provider a mounted [TaskProvider] can get to. *)
Record wellFormed (p : Provider) : Prop := mkWellFormed {
  wf_index :
    0 <= currentIndex p
    <= Z.max 0 (Z.of_nat (length (childrenArray p)) - 1);
  wf_tasks :
    forall tid task, tasks (state p) !! tid = Some task ->
      Task.id task = tid /\ 0 <= Task.index task <= currentIndex p;
  wf_completed :
    forall tid task, tasks (state p) !! tid = Some task ->
      Task.status task = completed -> tid ∈ completedTaskIds (state p);
  wf_earlier :
    forall tid task, tasks (state p) !! tid = Some task ->
      Task.index task < currentIndex p -> tid ∈ completedTaskIds (state p);
  wf_roots :
    forall tid, tid ∈ rootTaskIds (state p) ->
      is_Some (tasks (state p) !! tid)
}.

(** ** Asynchronous bodies of the leaf operations

    The components that use the handle pass [execute] an [async] function
    that awaits external calls, updates the component's state with
    [setState] and catches what is thrown. [Async S A] is such a computation
    over a component state [S]: it ends with a value, with a thrown value,
    or stays suspended at an [await] that never settles, and in each case
    leaves the state the [setState] calls made so far have produced. *)

(** How an awaited external call ends. *)
Inductive Outcome (A : Type) : Type :=
| Returned (a : A)
| Threw (v : JsValue)
| Pending.

Arguments Returned {A} a.
Arguments Threw {A} v.
Arguments Pending {A}.

Inductive Run (S A : Type) : Type :=
| Done (s : S) (a : A)
| Raised (s : S) (v : JsValue)
| Stuck (s : S).

Arguments Done {S A} s a.
Arguments Raised {S A} s v.
Arguments Stuck {S A} s.

Definition Async (S A : Type) : Type := S -> Run S A.

#[export] Instance Async_ret {S} : MRet (Async S) :=
  fun A a s => Done s a.

#[export] Instance Async_bind {S} : MBind (Async S) :=
  fun A B k c s =>
    match c s with
    | Done s' a => k a s'
    | Raised s' v => Raised s' v
    | Stuck s' => Stuck s'
    end.

(** [setState(update)] *)
Definition setState {S} (update : S -> S) : Async S unit :=
  fun s => Done (update s) tt.

(** [await call] *)
Definition await {S A} (call : Outcome A) : Async S A :=
  fun s =>
    match call with
    | Returned a => Done s a
    | Threw v => Raised s v
    | Pending => Stuck s
    end.

(** [throw v] *)
Definition throw {S A} (v : JsValue) : Async S A :=
  fun s => Raised s v.

(** [try { body } catch (error) { handler }] *)
Definition tryCatch {S A} (body : Async S A) (handler : JsValue -> Async S A)
  : Async S A :=
  fun s =>
    match body s with
    | Raised s' v => handler v s'
    | r => r
    end.

(** [await callback?.(a)] *)
Definition awaitOptional {S A} (callback : option (A -> Outcome unit)) (a : A)
  : Async S unit :=
  match callback with
  | Some f => await (f a)
  | None => mret tt
  end.

(** The state a run leaves, and how the promise of the body ends. *)
Definition stateOf {S A} (r : Run S A) : S :=
  match r with
  | Done s _ | Raised s _ | Stuck s => s
  end.

Definition promiseOf {S} (r : Run S JsValue) : option Settled :=
  match r with
  | Done _ a => Some (Fulfilled a)
  | Raised _ v => Some (Rejected v)
  | Stuck _ => None
  end.

(** ** [FileReader.tsx] *)

Module FileReader.

Inductive FileFormat : Set := text | binary | json | base64.

Section Component.

(** A Node [Buffer], a value [JSON.parse] returns, and the Node calls on
    them: [buffer.toString("utf-8")], [buffer.toString("base64")],
    [JSON.parse] (which throws a [SyntaxError]) and the JS truthiness of a
    parsed value. *)
Context {Buffer Parsed : Type}.
Variable toUtf8 : Buffer -> string.
Variable toBase64 : Buffer -> string.
Variable JSON_parse : string -> Error + Parsed.
Variable truthyParsed : Parsed -> bool.

Inductive FileContent : Type :=
| ContentNull
| ContentString (s : string)
| ContentBuffer (b : Buffer)
| ContentParsed (v : Parsed).

Record FileState : Type := mkFileState {
  content : FileContent;
  path : string;
  format : FileFormat;
  error : option Error;
  loading : bool
}.

(** The state [useState] starts from. *)
Definition initial (path : string) (format : FileFormat) : FileState :=
  {| content := ContentNull; path := path; format := format;
     error := None; loading := true |}.

Definition processContent (format : FileFormat) (buffer : Buffer)
  : Outcome FileContent :=
  match format with
  | text => Returned (ContentString (toUtf8 buffer))
  | json =>
      match JSON_parse (toUtf8 buffer) with
      | inr v => Returned (ContentParsed v)
      | inl e => Threw (JsError e)
      end
  | base64 => Returned (ContentString (toBase64 buffer))
  | binary => Returned (ContentBuffer buffer)
  end.

(** [{ ...prev, content, error, loading }] *)
Definition patch (prev : FileState) (c : FileContent) (e : option Error)
    (l : bool) : FileState :=
  {| content := c; path := path prev; format := format prev;
     error := e; loading := l |}.

(** [readFileContent], the body handed to [execute]; [readFile] is how
    [readFile(resolve(process.cwd(), path))] ends. *)
Definition readFileContent (format : FileFormat) (readFile : Outcome Buffer)
    (onSuccess : option (FileContent -> Outcome unit))
    (onError : option (Error -> Outcome unit))
  : Async FileState JsValue :=
  tryCatch
    (setState (fun prev => patch prev (content prev) None true);;
     buffer ← await readFile;
     content ← await (processContent format buffer);
     setState (fun prev => patch prev content (error prev) false);;
     awaitOptional onSuccess content;;
     mret JsUndefined)
    (fun thrown =>
       let finalError := normalizeError thrown in
       setState (fun prev => patch prev (content prev) (Some finalError) false);;
       awaitOptional onError finalError;;
       mret JsUndefined).

(** JS truthiness of [state.content]. *)
Definition truthyContent (c : FileContent) : bool :=
  match c with
  | ContentNull => false
  | ContentString s => negb (String.eqb s "")
  | ContentBuffer _ => true
  | ContentParsed v => truthyParsed v
  end.

(** Whether each helper component renders its children. *)
Definition FileReading (st : FileState) : bool := loading st.

Definition FileError (st : FileState) : bool :=
  bool_decide (is_Some (error st)).

Definition FileSuccess (st : FileState) : bool :=
  negb (loading st
        || bool_decide (is_Some (error st))
        || negb (truthyContent (content st))).

End Component.

End FileReader.

(** ** The [Fetch] component *)

Module Fetch.

Section Component.

(** What [response.json()] resolves with, and its JS truthiness. *)
Context {Data : Type}.
Variable truthyData : Data -> bool.

Record FetchState : Type := mkFetchState {
  data : option Data;
  error : option Error;
  loading : bool
}.

Definition initial : FetchState :=
  {| data := None; error := None; loading := false |}.

(** The part of a [Response] the component looks at, or could. *)
Record Response : Type := mkResponse {
  ok : bool;
  status : Z;
  json : Outcome Data
}.

(** The body handed to [execute]; [fetch] is how [fetch(url)] ends. When
    [response.ok] is false the body only writes to [console.error]. *)
Definition body (fetch : Outcome Response)
    (onSuccess : option (Data -> Outcome unit))
    (onError : option (Error -> Outcome unit))
  : Async FetchState JsValue :=
  tryCatch
    (response ← await fetch;
     d ← await (json response);
     setState (fun _ => {| data := Some d; error := None; loading := false |});;
     awaitOptional onSuccess d;;
     mret JsUndefined)
    (fun thrown =>
       let finalError := normalizeError thrown in
       setState (fun _ =>
         {| data := None; error := Some finalError; loading := false |});;
       awaitOptional onError finalError;;
       mret JsUndefined).

(** [fetchData] up to the call of [execute]. *)
Definition fetchData (st : FetchState) : FetchState :=
  {| data := data st; error := error st; loading := true |}.

Definition FetchLoading (st : FetchState) : bool := loading st.

Definition FetchError (st : FetchState) : bool :=
  bool_decide (is_Some (error st)).

Definition FetchSuccess (st : FetchState) : bool :=
  match data st with
  | Some d => truthyData d && negb (loading st)
              && negb (bool_decide (is_Some (error st)))
  | None => false
  end.

End Component.

End Fetch.

(** ** [Shell.tsx] *)

Module Shell.

Record ShellState : Type := mkShellState {
  output : option string;
  error : option Error;
  exitCode : option Z;
  loading : bool;
  stderr : option string
}.

Definition initial : ShellState :=
  {| output := None; error := None; exitCode := None; loading := false;
     stderr := None |}.

(** The body handed to [execute] when [mode] is ['exec'], the default;
    [execAsync] is how [execAsync(command, options)] ends, with
    [{ stdout, stderr }]. *)
Definition execBody (execAsync : Outcome (string * string))
    (onSuccess : option (string * Z -> Outcome unit))
    (onError : option (Error -> Outcome unit))
    (onStderr : option (string -> Outcome unit))
  : Async ShellState JsValue :=
  tryCatch
    (r ← await execAsync;
     let '(out, err) := r in
     setState (fun _ =>
       {| output := Some out; stderr := Some err; error := None;
          exitCode := Some 0; loading := false |});;
     awaitOptional onSuccess (out, 0);;
     (if truthy (Some err)
      then awaitOptional onStderr err
      else mret tt);;
     mret JsUndefined)
    (fun thrown =>
       let finalError := normalizeError thrown in
       setState (fun _ =>
         {| output := None; stderr := None; error := Some finalError;
            exitCode := Some 1; loading := false |});;
       awaitOptional onError finalError;;
       throw (JsError finalError)).

(** [executeCommand] up to the call of [execute]. *)
Definition executeCommand (st : ShellState) : ShellState :=
  {| output := output st; error := error st; exitCode := exitCode st;
     loading := true; stderr := stderr st |}.

Definition ShellLoading (st : ShellState) : bool := loading st.

Definition ShellError (st : ShellState) : bool :=
  bool_decide (is_Some (error st)).

Definition ShellSuccess (st : ShellState) : bool :=
  negb (negb (truthy (output st))
        || loading st
        || bool_decide (is_Some (error st))
        || negb (bool_decide (exitCode st = Some 0))).

End Shell.

(** ** [Prompt.tsx] *)

Module Prompt.

Record PromptState : Type := mkPromptState {
  value : option string;
  error : option Error;
  loading : bool
}.

Definition initial : PromptState :=
  {| value := None; error := None; loading := false |}.

(** What the terminal does with the question: a line is entered, or Ctrl+C
    is pressed, or neither ever happens. *)
Inductive Asked : Type :=
| Answered (answer : string)
| Interrupted
| Unanswered.

(** What [validate] resolves with: [boolean | string] *)
Inductive Verdict : Type :=
| Message (s : string)
| Valid (b : bool).

Section Component.

(** [answer.trim()] *)
Variable trim : string -> string.

(** The promise around [rl.question]: it resolves with
    [answer.trim() || defaultValue] and is rejected on [SIGINT]. *)
Definition question (defaultValue : string) (asked : Asked)
  : Outcome string :=
  match asked with
  | Answered answer =>
      Returned (if truthy (Some (trim answer)) then trim answer
                else defaultValue)
  | Interrupted => Threw (JsError (mkError "User cancelled"))
  | Unanswered => Pending
  end.

(** The body handed to [execute] by [handlePrompt]. *)
Definition body (defaultValue : string) (asked : Asked)
    (onSubmit : option (string -> Outcome unit))
    (onCancel : option (unit -> Outcome unit))
    (validate : option (string -> Outcome Verdict))
  : Async PromptState JsValue :=
  tryCatch
    (userInput ← await (question defaultValue asked);
     if negb (truthy (Some userInput))
     then
       awaitOptional onCancel tt;;
       setState (fun _ =>
         {| value := None; error := None; loading := false |});;
       mret JsUndefined
     else
       match validate with
       | Some check =>
           validationResult ← await (check userInput);
           match validationResult with
           | Message s =>
               setState (fun _ =>
                 {| value := None; error := Some (mkError s);
                    loading := false |})
           | Valid false =>
               setState (fun _ =>
                 {| value := None; error := Some (mkError "Invalid input");
                    loading := false |})
           | Valid true => mret tt
           end
       | None => mret tt
       end;;
       setState (fun _ =>
         {| value := Some userInput; error := None; loading := false |});;
       awaitOptional onSubmit userInput;;
       mret JsUndefined)
    (fun thrown =>
       let finalError := normalizeError thrown in
       setState (fun _ =>
         {| value := None; error := Some finalError; loading := false |});;
       throw (JsError finalError)).

End Component.

(** [handlePrompt] up to the call of [execute]. *)
Definition handlePrompt (st : PromptState) : PromptState :=
  {| value := value st; error := error st; loading := true |}.

Definition PromptLoading (st : PromptState) : bool := loading st.

Definition PromptError (st : PromptState) : bool :=
  bool_decide (is_Some (error st)).

Definition PromptSuccess (st : PromptState) : bool :=
  truthy (value st) && negb (loading st)
  && negb (bool_decide (is_Some (error st))).

End Prompt.

(** What happens when each step, from step [k] on, mounts one leaf
    operation whose body resolves: the handle registers under the current
    index, [complete] is dispatched, the progression effect runs. One entry
    of [randoms] per step. *)
Fixpoint oneTaskPerStep (k : Z) (name : string) (randoms : list string)
  : list Event :=
  match randoms with
  | [] => []
  | random :: rest =>
      [RegisterTask random name None;
       StartTask 0 (newTaskId k random);
       CompleteTask 0 (newTaskId k random);
       RunProgression]
      ++ oneTaskPerStep (k + 1) name rest
  end.

(** ** The tasks object as JavaScript sees it

    [state.tasks] is a plain object, so [state.tasks[id]] finds the own
    property [id] and, failing that, what [Object.prototype] holds under
    that name: a function, or for ["__proto__"] the prototype itself. Such
    a value is truthy and has none of the fields of a task, and the reducer
    spreads whatever it has found. [Js] is the store at that level: a
    stored value is the set of fields it has, and the reducer can throw. *)

Module Js.

(** The property names a plain object inherits from [Object.prototype]. *)
Definition inherited : list string :=
  ["constructor"; "hasOwnProperty"; "isPrototypeOf"; "propertyIsEnumerable";
   "toLocaleString"; "toString"; "valueOf"; "__proto__";
   "__defineGetter__"; "__defineSetter__"; "__lookupGetter__";
   "__lookupSetter__"].

(** The own enumerable properties of a value stored in [state.tasks]. *)
Record Fields : Type := mkFields {
  id : option TaskId;
  name : option string;
  status : option TaskStatus;
  error : option Error;
  startTime : option Z;
  endTime : option Z;
  parentId : option TaskId;
  childIds : option (list TaskId);
  index : option Z
}.

Definition noFields : Fields :=
  mkFields None None None None None None None None None.

(** The fields of a task that [registerTask] has built. *)
Definition fields (task : Task) : Fields :=
  mkFields (Some (Task.id task)) (Some (Task.name task))
           (Some (Task.status task)) (Task.error task)
           (Task.startTime task) (Task.endTime task) (Task.parentId task)
           (Some (Task.childIds task)) (Some (Task.index task)).

(** What [state.tasks[id]] evaluates to when it is not [undefined]. *)
Inductive Value : Type :=
| Own (f : Fields)
| Inherited.

(** [tasks[id]] *)
Definition get (m : gmap string Fields) (id : string) : option Value :=
  match m !! id with
  | Some f => Some (Own f)
  | None => if bool_decide (id ∈ inherited) then Some Inherited else None
  end.

(** [{ ...value }]: an inherited function or prototype has no own
    enumerable property. *)
Definition spread (v : Value) : Fields :=
  match v with
  | Own f => f
  | Inherited => noFields
  end.

Record Store : Type := mkStore {
  tasks : gmap string Fields;
  rootTaskIds : list TaskId;
  completedTaskIds : list TaskId
}.

Definition initial : Store :=
  {| tasks := ∅; rootTaskIds := []; completedTaskIds := [] |}.

(** [{ ...task, status: "running", startTime: now }] and the like. *)
Definition started (now : Z) (f : Fields) : Fields :=
  mkFields (id f) (name f) (Some running) (error f) (Some now) (endTime f)
           (parentId f) (childIds f) (index f).

Definition finished (now : Z) (f : Fields) : Fields :=
  mkFields (id f) (name f) (Some completed) (error f) (startTime f)
           (Some now) (parentId f) (childIds f) (index f).

Definition broken (now : Z) (err : Error) (f : Fields) : Fields :=
  mkFields (id f) (name f) (Some failed) (Some err) (startTime f) (Some now)
           (parentId f) (childIds f) (index f).

Definition withParent (p : TaskId) (f : Fields) : Fields :=
  mkFields (id f) (name f) (status f) (error f) (startTime f) (endTime f)
           (Some p) (childIds f) (index f).

Definition withChildIds (l : list TaskId) (f : Fields) : Fields :=
  mkFields (id f) (name f) (status f) (error f) (startTime f) (endTime f)
           (parentId f) (Some l) (index f).

(** [task.index <= currentIndex]; [undefined <= n] is false. *)
Definition keeps (currentIndex : Z) (f : Fields) : bool :=
  match index f with
  | Some i => bool_decide (i <= currentIndex)
  | None => false
  end.

Definition filteredTasks (currentIndex : Z) (m : gmap string Fields)
  : gmap string Fields :=
  map_fold
    (fun id task acc => if keeps currentIndex task then <[id := task]> acc
                        else acc)
    ∅ m.

(** What a call of the reducer comes to. [ProtoReplaced]: in
    [CLEANUP_TASKS] the assignment [acc[id] = task] for the key
    ["__proto__"] replaces the prototype of the new map instead of adding a
    key; what lookups find in such a map is left out of this model. *)
Inductive Result : Type :=
| Next (st : Store)
| TypeError
| ProtoReplaced.

Definition reducer (now : Z) (state : Store) (action : TaskAction) : Result :=
  match action with
  | REGISTER_TASK task =>
      Next {| tasks := <[Task.id task := fields task]> (tasks state);
              rootTaskIds :=
                if truthy (Task.parentId task)
                then rootTaskIds state
                else rootTaskIds state ++ [Task.id task];
              completedTaskIds := completedTaskIds state |}
  | START_TASK id =>
      match get (tasks state) id with
      | None => Next state
      | Some task =>
          Next {| tasks := <[id := started now (spread task)]> (tasks state);
                  rootTaskIds := rootTaskIds state;
                  completedTaskIds := completedTaskIds state |}
      end
  | COMPLETE_TASK id =>
      match get (tasks state) id with
      | None => Next state
      | Some task =>
          Next {| tasks := <[id := finished now (spread task)]> (tasks state);
                  rootTaskIds := rootTaskIds state;
                  completedTaskIds := completedTaskIds state ++ [id] |}
      end
  | FAIL_TASK id err =>
      match get (tasks state) id with
      | None => Next state
      | Some task =>
          Next {| tasks :=
                    <[id := broken now err (spread task)]> (tasks state);
                  rootTaskIds := rootTaskIds state;
                  completedTaskIds := completedTaskIds state |}
      end
  | SET_PARENT id parentId =>
      match get (tasks state) id, get (tasks state) parentId with
      | Some task, Some parent =>
          match childIds (spread parent) with
          | None => TypeError
          | Some children =>
              Next {| tasks :=
                        <[parentId := withChildIds (children ++ [id])
                                                   (spread parent)]>
                          (<[id := withParent parentId (spread task)]>
                             (tasks state));
                      rootTaskIds :=
                        filter (fun tid => tid ≠ id) (rootTaskIds state);
                      completedTaskIds := completedTaskIds state |}
          end
      | _, _ => Next state
      end
  | CLEANUP_TASKS currentIndex =>
      match tasks state !! "__proto__" with
      | Some f =>
          if keeps currentIndex f then ProtoReplaced
          else
            let kept := filteredTasks currentIndex (tasks state) in
            Next {| tasks := kept;
                    rootTaskIds :=
                      filter (fun id => is_Some (get kept id))
                             (rootTaskIds state);
                    completedTaskIds := completedTaskIds state |}
      | None =>
          let kept := filteredTasks currentIndex (tasks state) in
          Next {| tasks := kept;
                  rootTaskIds :=
                    filter (fun id => is_Some (get kept id))
                           (rootTaskIds state);
                  completedTaskIds := completedTaskIds state |}
      end
  end.

(** The reducer applied to a sequence of actions, each with its time, as
    long as it returns a store. *)
Fixpoint reduceAll (state : Store) (actions : list (Z * TaskAction))
  : Result :=
  match actions with
  | [] => Next state
  | (now, action) :: rest =>
      match reducer now state action with
      | Next state' => reduceAll state' rest
      | stopped => stopped
      end
  end.

(** [getTask]: [state.tasks[id]] *)
Definition getTask (st : Store) (id : TaskId) : option Value :=
  get (tasks st) id.

(** [getChildren]: [task.childIds.map(...)] throws when what was found has
    no [childIds]; [.filter(Boolean)] keeps every value that was found. *)
Definition getChildren (st : Store) (id : TaskId) : option (list Value) :=
  match get (tasks st) id with
  | Some task =>
      match childIds (spread task) with
      | Some children => Some (omap (get (tasks st)) children)
      | None => None
      end
  | None => Some []
  end.

(** [isCompleted]: [state.tasks[id]?.status === "completed"] *)
Definition isCompleted (st : Store) (id : TaskId) : bool :=
  match get (tasks st) id with
  | Some task => bool_decide (status (spread task) = Some completed)
  | None => false
  end.

(** [hasFailed]: [state.tasks[id]?.status === "failed"] *)
Definition hasFailed (st : Store) (id : TaskId) : bool :=
  match get (tasks st) id with
  | Some task => bool_decide (status (spread task) = Some failed)
  | None => false
  end.

(** The ids an action carries. *)
Definition idsOf (action : TaskAction) : list TaskId :=
  match action with
  | REGISTER_TASK task => [Task.id task]
  | START_TASK id | COMPLETE_TASK id | FAIL_TASK id _ => [id]
  | SET_PARENT id parentId => [id; parentId]
  | CLEANUP_TASKS _ => []
  end.

(** No id of the action is an inherited name. *)
Definition ownIds (action : TaskAction) : bool :=
  forallb (fun id => negb (bool_decide (id ∈ inherited))) (idsOf action).

(** *** The provider over the tasks object *)

Record Provider : Type := mkProvider {
  childrenArray : list ReactElement;
  state : Store;
  currentIndex : Z;
  previousCompletionState : gmap Z bool
}.

Definition mount (children : list ReactElement) : Provider :=
  {| childrenArray := children; state := initial; currentIndex := 0;
     previousCompletionState := ∅ |}.

(** [dispatch(action)]. [None]: the reducer has thrown, which takes the
    provider down, or it has replaced the prototype of the tasks object,
    where this model stops. *)
Definition dispatch (now : Z) (action : TaskAction) (p : Provider)
  : option Provider :=
  match reducer now (state p) action with
  | Next st =>
      Some {| childrenArray := childrenArray p;
              state := st;
              currentIndex := currentIndex p;
              previousCompletionState := previousCompletionState p |}
  | TypeError | ProtoReplaced => None
  end.

(** [Object.values(state.tasks).filter((task) => task.index === childIndex)] *)
Definition childTasks (st : Store) (childIndex : Z) : list Fields :=
  filter (fun task => index task = Some childIndex)
         (map_to_list (tasks st)).*2.

(** The value [isComplete] computed by [isCurrentChildComplete];
    [includes(undefined)] is false. *)
Definition isComplete (st : Store) (childIndex : Z) : bool :=
  bool_decide (0 < length (childTasks st childIndex))%nat
  && forallb
       (fun task =>
          match id task with
          | Some tid => includes (completedTaskIds st) tid
          | None => false
          end
          || bool_decide (status task = Some completed))
       (childTasks st childIndex).

Definition isCurrentChildComplete (p : Provider) (childIndex : Z)
  : bool * gmap Z bool :=
  match nodeAt (childrenArray p) childIndex with
  | None => (true, previousCompletionState p)
  | Some _ =>
      let verdict := isComplete (state p) childIndex in
      (verdict, <[childIndex := verdict]> (previousCompletionState p))
  end.

Definition cleanupEffect (now : Z) (p : Provider) : option Provider :=
  dispatch now (CLEANUP_TASKS (currentIndex p)) p.

Definition progressionEffect (p : Provider) : Provider :=
  let '(currentComplete, ref) := isCurrentChildComplete p (currentIndex p) in
  let previousComplete := default false (ref !! currentIndex p) in
  {| childrenArray := childrenArray p;
     state := state p;
     currentIndex :=
       if currentComplete && previousComplete
          && bool_decide (currentIndex p < Z.of_nat (length (childrenArray p)) - 1)
       then currentIndex p + 1 else currentIndex p;
     previousCompletionState := ref |}.

Definition registerTask (random name : string) (parentId : option TaskId)
    (p : Provider) : TaskId * option Provider :=
  (newTaskId (currentIndex p) random,
   dispatch 0 (REGISTER_TASK (newTask (currentIndex p) random name parentId)) p).

Definition step (p : Provider) (ev : Event) : option Provider :=
  match ev with
  | RegisterTask random name parentId => (registerTask random name parentId p).2
  | StartTask now id => dispatch now (START_TASK id) p
  | CompleteTask now id => dispatch now (COMPLETE_TASK id) p
  | FailTask now id err => dispatch now (FAIL_TASK id err) p
  | SetParent id parentId => dispatch 0 (SET_PARENT id parentId) p
  | RunCleanup => cleanupEffect 0 p
  | RunProgression => Some (progressionEffect p)
  end.

Fixpoint run (p : Provider) (evs : list Event) : option Provider :=
  match evs with
  | [] => Some p
  | ev :: rest =>
      match step p ev with
      | Some p' => run p' rest
      | None => None
      end
  end.

End Js.

(** The store of full task records, as the tasks object holds them. *)
Definition embed (st : TaskState) : Js.Store :=
  {| Js.tasks := Js.fields <$> tasks st;
     Js.rootTaskIds := rootTaskIds st;
     Js.completedTaskIds := completedTaskIds st |}.

(** No key and no root id of the store is an inherited name. *)
Definition ownKeys (st : TaskState) : Prop :=
  (forall id, is_Some (tasks st !! id) -> id ∉ Js.inherited)
  /\ (forall id, id ∈ rootTaskIds st -> id ∉ Js.inherited).

(** The provider whose store is the tasks object. *)
Definition embedProvider (p : Provider) : Js.Provider :=
  {| Js.childrenArray := childrenArray p;
     Js.state := embed (state p);
     Js.currentIndex := currentIndex p;
     Js.previousCompletionState := previousCompletionState p |}.

(** ** [Log.tsx]: [formatTable] *)

Module Log.

(** A JS string as the sequence of its UTF-16 code units: [length] is its
    [.length], which is what [padEnd] and the column widths count. *)
Abbreviation JsString := (list N) (only parsing).


(** An item of the table, a plain object: its own enumerable keys in the
    order of [Object.keys], each with the string [String(value ?? "")]
    makes of its value. *)
Abbreviation Item := (list (JsString * JsString)) (only parsing).

Section Table.

(** [String(v)] for what [Object.prototype] holds under an inherited name:
    the source text of a native function, which the engine chooses. *)
Variable native : JsString -> JsString.



(** [s.repeat(n)] for a string [s] of one code unit *)
Definition repeat (unit : N) (n : nat) : JsString := replicate n unit.








End Table.

End Log.

(** ** Vocabulary of the statements about the tasks object *)

(** [action] does not register a task under [tid]. *)
Definition sparesId (tid : TaskId) (action : TaskAction) : bool :=
  match action with
  | REGISTER_TASK task => negb (String.eqb (Task.id task) tid)
  | _ => true
  end.

(** [taskReducer] applied to a sequence of actions, each with its time. *)
Definition reduceAll (st : TaskState) (actions : list (Z * TaskAction))
  : TaskState :=
  foldl (fun acc timed => taskReducer timed.1 acc timed.2) st actions.

(** The ids an event hands to [start], [complete], [fail] or [setParent]. *)
Definition namedBy (ev : Event) : list TaskId :=
  match ev with
  | StartTask _ id | CompleteTask _ id | FailTask _ id _ => [id]
  | SetParent id parentId => [id; parentId]
  | RegisterTask _ _ _ | RunCleanup | RunProgression => []
  end.

(** No id the event names is an inherited name of the tasks object. *)
Definition namesOwn (ev : Event) : bool :=
  forallb (fun id => negb (bool_decide (id ∈ Js.inherited))) (namedBy ev).

(** A parent of step 0 with one child of step 0 and one of step 1. *)
Definition family : TaskState :=
  state (run (mount [Step "A"; Step "B"])
             [RegisterTask "p000000" "Prompt: name" None;
              RegisterTask "c000000" "Log" None;
              CompleteTask 5 "0-p000000";
              CompleteTask 6 "0-c000000";
              RunProgression;
              RegisterTask "d000000" "Log" None;
              SetParent "0-c000000" "0-p000000";
              SetParent "1-d000000" "0-p000000"]).

(** A task and the task that is to become its parent, both parentless. *)
Definition parentAndChild : TaskState :=
  state (run (mount [Step "A"; Step "B"])
             [RegisterTask "p000000" "Prompt: name" None;
              RegisterTask "c000000" "Log" None]).

(** Two stored values with the same [id], [name] and [index]. *)
Definition sameIdentity (f' f : Js.Fields) : Prop :=
  Js.id f' = Js.id f /\ Js.name f' = Js.name f /\ Js.index f' = Js.index f.

(** ** Basic facts about the store *)

Section Store.

Implicit Types (st : TaskState) (m : gmap string Task) (task : Task).

Lemma filteredTasks_filter k m :
  filteredTasks k m = filter (fun kv => Task.index kv.2 <= k) m.
Proof.
  unfold filteredTasks.
  apply (map_fold_weak_ind
           (fun r m' => r = filter (fun kv => Task.index kv.2 <= k) m')).
  - by rewrite map_filter_empty.
  - intros i x m' r Hi ->. case_bool_decide.
    + by rewrite map_filter_insert_True.
    + rewrite map_filter_insert_False by done.
      by rewrite delete_id.
Qed.

Lemma filteredTasks_lookup_Some k m tid task :
  filteredTasks k m !! tid = Some task
  <-> m !! tid = Some task /\ Task.index task <= k.
Proof. rewrite filteredTasks_filter. apply map_lookup_filter_Some. Qed.

Lemma elem_of_childTasks st i task :
  task ∈ childTasks st i
  <-> (exists tid, tasks st !! tid = Some task) /\ Task.index task = i.
Proof.
  unfold childTasks. rewrite list_elem_of_filter, list_elem_of_fmap.
  split.
  - intros [Hi [[tid t] [-> Hin]]]. apply elem_of_map_to_list in Hin. eauto.
  - intros [[tid Hl] Hi]. split; [done|].
    exists (tid, task). split; [done|]. by apply elem_of_map_to_list.
Qed.

Lemma isComplete_true st i :
  isComplete st i = true
  <-> (exists tid task, tasks st !! tid = Some task /\ Task.index task = i)
      /\ (forall tid task,
            tasks st !! tid = Some task -> Task.index task = i ->
            Task.id task ∈ completedTaskIds st
            \/ Task.status task = completed).
Proof.
  unfold isComplete.
  rewrite andb_true_iff, bool_decide_eq_true, forallb_forall.
  split.
  - intros [Hlen Hall]. split.
    + destruct (childTasks st i) as [|task l] eqn:E; [simpl in Hlen; lia|].
      assert (Hin : task ∈ childTasks st i) by (rewrite E; left).
      apply elem_of_childTasks in Hin as [[tid Hl] Hi]. eauto.
    + intros tid task Hl Hi.
      assert (Hin : task ∈ childTasks st i)
        by (apply elem_of_childTasks; eauto).
      apply list_elem_of_In, Hall in Hin.
      apply orb_true_iff in Hin as [Hin|Hin].
      * left. by apply bool_decide_eq_true in Hin.
      * right. by apply bool_decide_eq_true in Hin.
  - intros [(tid & task & Hl & Hi) Hall]. split.
    + assert (Hin : task ∈ childTasks st i)
        by (apply elem_of_childTasks; eauto).
      destruct (childTasks st i); [by apply elem_of_nil in Hin|simpl; lia].
    + intros task' Hin. apply list_elem_of_In, elem_of_childTasks in Hin.
      destruct Hin as [[tid' Hl'] Hi'].
      apply orb_true_iff. unfold includes.
      destruct (Hall tid' task' Hl' Hi') as [H|H].
      * left. by apply bool_decide_eq_true.
      * right. by apply bool_decide_eq_true.
Qed.

End Store.

(** ** Unknown ids, terminal statuses, pruning *)

(** C9. The guard [if (!task) return state] lets the names through that
    every object inherits. On the empty store, [start], [complete] and
    [fail] of the id ["constructor"] find the inherited function, store a
    record under that id that has nothing but the fields the transition
    writes, and [complete] appends the id to [completedTaskIds]; and
    [setParent] throws a [TypeError] when the parent id is such a name,
    whether the child is a registered task or another inherited name. *)
Theorem guard_lets_inherited_names_through (now : Z) :
  Js.reducer now Js.initial (START_TASK "constructor")
  = Js.Next
      {| Js.tasks :=
           {["constructor" :=
               Js.mkFields None None (Some running) None (Some now) None
                           None None None]};
         Js.rootTaskIds := [];
         Js.completedTaskIds := [] |}
  /\ Js.reducer now Js.initial (COMPLETE_TASK "constructor")
     = Js.Next
         {| Js.tasks :=
              {["constructor" :=
                  Js.mkFields None None (Some completed) None None (Some now)
                              None None None]};
            Js.rootTaskIds := [];
            Js.completedTaskIds := ["constructor"] |}
  /\ (forall err,
        Js.reducer now Js.initial (FAIL_TASK "constructor" err)
        = Js.Next
            {| Js.tasks :=
                 {["constructor" :=
                     Js.mkFields None None (Some failed) (Some err) None
                                 (Some now) None None None]};
               Js.rootTaskIds := [];
               Js.completedTaskIds := [] |})
  /\ Js.reduceAll Js.initial
       [(0, REGISTER_TASK (newTask 0 "k3j9x2a" "Shell: ls" None));
        (now, SET_PARENT "0-k3j9x2a" "constructor")]
     = Js.TypeError
  /\ Js.reducer now Js.initial (SET_PARENT "toString" "valueOf")
     = Js.TypeError.
Proof. by split_and!. Qed.

(** C10. The store does not make [completed] or [failed] terminal. For a
    task that exists, whatever its status, [start] leaves it [running] with
    [startTime] overwritten by the current time, and [complete] leaves it
    [completed] and appends its id to [completedTaskIds]; this holds in
    particular for a task that had failed. *)
Theorem store_does_not_enforce_terminality
    (now : Z) (st : TaskState) (id : TaskId) (task : Task)
    (Hid : tasks st !! id = Some task) :
  let started := taskReducer now st (START_TASK id) in
  let finished := taskReducer now st (COMPLETE_TASK id) in
  (exists task',
      tasks started !! id = Some task'
      /\ Task.status task' = running
      /\ Task.startTime task' = Some now)
  /\ completedTaskIds started = completedTaskIds st
  /\ (exists task',
         tasks finished !! id = Some task'
         /\ Task.status task' = completed
         /\ Task.endTime task' = Some now)
  /\ completedTaskIds finished = completedTaskIds st ++ [id].
Proof.
  simpl. rewrite Hid. simpl. split_and!; try done.
  - eexists. by rewrite lookup_insert_eq.
  - eexists. by rewrite lookup_insert_eq.
Qed.

Lemma store_does_not_enforce_terminality_witness :
  let st := state failedOnce in
  let id := "0-k3j9x2a" in
  (Task.status <$> tasks st !! id) = Some failed
  /\ (exists task',
        tasks (taskReducer 200 st (START_TASK id)) !! id = Some task'
        /\ Task.status task' = running
        /\ Task.startTime task' = Some 200)
  /\ (exists task',
        tasks (taskReducer 200 st (COMPLETE_TASK id)) !! id = Some task'
        /\ Task.status task' = completed
        /\ Task.endTime task' = Some 200)
  /\ completedTaskIds (taskReducer 200 st (COMPLETE_TASK id))
     = completedTaskIds st ++ [id].
Proof.
  split; [vm_compute; reflexivity|].
  destruct (store_does_not_enforce_terminality
              200 (state failedOnce) "0-k3j9x2a"
              (Task.mk "0-k3j9x2a" "Shell: ls" failed (Some (mkError "exit 1"))
                       (Some 100) (Some 105) None [] 0))
    as (Hstart & _ & Hdone & Hlist).
  - vm_compute. reflexivity.
  - split; [exact Hstart|]. split; [exact Hdone|exact Hlist].
Defined.

(** C6. After [pruneAbove(k)] every task left in the store has
    [stepIndex <= k]; every task that had [stepIndex <= k] is still there
    under its id, as the very same record (status, timestamps, error,
    parentId, childIds); nothing else is there; and [rootTaskIds] is the
    former [rootTaskIds] filtered to the ids that are still in the store. *)
Theorem pruneAbove_spec (now : Z) (st : TaskState) (k : Z) :
  let st' := taskReducer now st (CLEANUP_TASKS k) in
  (forall tid task, tasks st' !! tid = Some task -> Task.index task <= k)
  /\ (forall tid task,
        tasks st !! tid = Some task -> Task.index task <= k ->
        tasks st' !! tid = Some task)
  /\ (forall tid task,
        tasks st' !! tid = Some task -> tasks st !! tid = Some task)
  /\ rootTaskIds st'
     = filter (fun tid => is_Some (tasks st' !! tid)) (rootTaskIds st).
Proof.
  simpl. repeat split.
  - intros tid task H. by apply filteredTasks_lookup_Some in H as [_ H].
  - intros tid task H1 H2. by apply filteredTasks_lookup_Some.
  - intros tid task H. by apply filteredTasks_lookup_Some in H as [H _].
Qed.

Lemma pruneAbove_spec_witness :
  let st := state twoSteps in
  let st' := taskReducer 0 st (CLEANUP_TASKS 0) in
  (Task.index <$> tasks st !! "1-q8w1e5r") = Some 1
  /\ tasks st' !! "1-q8w1e5r" = None
  /\ tasks st' !! "0-k3j9x2a" = tasks st !! "0-k3j9x2a"
  /\ rootTaskIds st' = ["0-k3j9x2a"]
  /\ (forall tid task, tasks st' !! tid = Some task -> Task.index task <= 0).
Proof.
  pose proof (pruneAbove_spec 0 (state twoSteps) 0) as (Hle & _).
  repeat split; [vm_compute; reflexivity ..|exact Hle].
Defined.

(** ** The step-completion predicate *)

Lemma run_progression_state p n :
  state (run p (replicate n RunProgression)) = state p
  /\ childrenArray (run p (replicate n RunProgression)) = childrenArray p.
Proof.
  revert p. induction n as [|n IH]; intros p; [done|].
  simpl. destruct (IH (progressionEffect p)) as [-> ->].
  unfold progressionEffect.
  by destruct (isCurrentChildComplete p (currentIndex p)).
Qed.

Lemma isCurrentChildComplete_node p i node :
  nodeAt (childrenArray p) i = Some node ->
  (isCurrentChildComplete p i).1 = isComplete (state p) i.
Proof. unfold isCurrentChildComplete. by intros ->. Qed.

(** C3, as the code has it. The predicate returns [true] exactly when the
    index names no step node, or some task has that [stepIndex] and every
    such task has status [completed] or has its id in [completedTaskIds].
    For an index that names a step node, a step with no task never satisfies
    it, however many times the progression effect is evaluated. *)
Theorem step_completion_predicate (p : Provider) (i : Z) :
  ((isCurrentChildComplete p i).1 = true
   <-> nodeAt (childrenArray p) i = None
       \/ ((exists tid task,
              tasks (state p) !! tid = Some task /\ Task.index task = i)
           /\ (forall tid task,
                 tasks (state p) !! tid = Some task -> Task.index task = i ->
                 Task.id task ∈ completedTaskIds (state p)
                 \/ Task.status task = completed)))
  /\ (is_Some (nodeAt (childrenArray p) i) ->
      (forall tid task,
          tasks (state p) !! tid = Some task -> Task.index task <> i) ->
      forall n,
        (isCurrentChildComplete (run p (replicate n RunProgression)) i).1
        = false).
Proof.
  split.
  - destruct (nodeAt (childrenArray p) i) as [node|] eqn:E.
    + rewrite (isCurrentChildComplete_node _ _ _ E), isComplete_true.
      split; [by right|]. by intros [?|?].
    + unfold isCurrentChildComplete. rewrite E. simpl. split; [by left|done].
  - intros [node E] Hnone n.
    destruct (run_progression_state p n) as [Hst Hch].
    rewrite (isCurrentChildComplete_node _ _ node) by (by rewrite Hch).
    rewrite Hst. apply not_true_is_false. rewrite isComplete_true.
    intros [(tid & task & Hl & Hi) _]. by apply (Hnone tid task).
Qed.

Lemma step_completion_predicate_witness :
  (isCurrentChildComplete
     (run (mount [Step "A"; Step "B"]) (replicate 100 RunProgression)) 0).1
  = false.
Proof.
  apply (step_completion_predicate (mount [Step "A"; Step "B"]) 0).
  - vm_compute. eauto.
  - intros tid task H. vm_compute in H. discriminate.
Defined.

(** C3, counterexample. The only task of step 0 is [running], yet the
    predicate holds, because its id is in [completedTaskIds]. *)
Lemma step_completion_predicate_counterexample :
  (Task.status <$> childTasks (state rerunning) 0) = [running]
  /\ allChildTasksCompleted (state rerunning) 0 = false
  /\ (isCurrentChildComplete rerunning 0).1 = true.
Proof. vm_compute. repeat split. Qed.

(** ** The sequencer *)

(** The ref is written by [isCurrentChildComplete] before the progression
    effect reads [previousComplete] from it: for an index that names a step
    node, the value read is the verdict just computed. *)
Lemma previousComplete_is_currentComplete p node :
  nodeAt (childrenArray p) (currentIndex p) = Some node ->
  (isCurrentChildComplete p (currentIndex p)).2 !! currentIndex p
  = Some (isCurrentChildComplete p (currentIndex p)).1.
Proof.
  intros E. unfold isCurrentChildComplete. rewrite E. simpl.
  by rewrite lookup_insert_eq.
Qed.

Lemma progressionEffect_currentIndex p :
  0 <= currentIndex p ->
  currentIndex (progressionEffect p)
  = if isComplete (state p) (currentIndex p)
       && bool_decide (currentIndex p < Z.of_nat (length (childrenArray p)) - 1)
    then currentIndex p + 1 else currentIndex p.
Proof.
  intros Hpos. unfold progressionEffect, isCurrentChildComplete.
  destruct (nodeAt (childrenArray p) (currentIndex p)) as [node|] eqn:E;
    cbv beta iota zeta; unfold currentIndex at 1.
  - rewrite lookup_insert_eq. simpl.
    by destruct (isComplete (state p) (currentIndex p)).
  - unfold nodeAt in E. rewrite bool_decide_eq_true_2 in E by done.
    apply lookup_ge_None in E.
    rewrite (bool_decide_eq_false_2 (currentIndex p < _)) by lia.
    by rewrite !andb_false_r.
Qed.

(** C1, the code at the failing input. No verdict has been recorded for
    step 0, the first evaluation of the predicate reads [true], and that one
    evaluation moves [currentIndex] from 0 to 1. *)
Theorem progression_advances_on_first_true_reading :
  currentIndex firstReading = 0
  /\ previousCompletionState firstReading !! 0 = None
  /\ (isCurrentChildComplete firstReading 0).1 = true
  /\ currentIndex (progressionEffect firstReading) = 1.
Proof. vm_compute. repeat split. Qed.

Lemma heldOpenBy_not_complete tid p :
  heldOpenBy tid p -> isComplete (state p) (currentIndex p) = false.
Proof.
  intros (_ & Hnot & task & Hl & Hid & Hidx & Hst).
  apply not_true_is_false. rewrite isComplete_true. intros [_ Hall].
  destruct (Hall tid task Hl Hidx) as [H|H]; [|done].
  by rewrite Hid in H.
Qed.

Lemma heldOpenBy_step tid p ev :
  completes tid ev = false ->
  heldOpenBy tid p ->
  heldOpenBy tid (step p ev) /\ currentIndex (step p ev) = currentIndex p.
Proof.
  intros Hev Hheld.
  pose proof Hheld as (Hpos & Hnot & task & Hl & Hid & Hidx & Hst).
  unfold heldOpenBy.
  destruct ev as [random name parentId|now id|now id|now id err
                 |id parentId| |]; simpl in *.
  - (* registerTask *)
    split; [|done]. split_and!; [done..|].
    destruct (decide (newTaskId (currentIndex p) random = tid)) as [<-|Hne].
    + exists (newTask (currentIndex p) random name parentId).
      rewrite lookup_insert_eq. by_fields.
    + exists task. by rewrite lookup_insert_ne.
  - (* startTask *)
    split; [|done]. split; [done|].
    destruct (tasks (state p) !! id) as [t|] eqn:E; simpl;
      [|split; [done|by exists task]].
    split; [done|].
    destruct (decide (id = tid)) as [->|Hne].
    + exists (Task.started now t). rewrite lookup_insert_eq.
      rewrite Hl in E. injection E as <-. by_fields.
    + exists task. by rewrite lookup_insert_ne.
  - (* completeTask, of another id *)
    apply bool_decide_eq_false in Hev.
    split; [|done]. split; [done|].
    destruct (tasks (state p) !! id) as [t|] eqn:E; simpl;
      [|split; [done|by exists task]].
    split.
    + rewrite elem_of_app, list_elem_of_singleton. intros [?|?]; by subst.
    + exists task. by rewrite lookup_insert_ne.
  - (* failTask *)
    split; [|done]. split; [done|].
    destruct (tasks (state p) !! id) as [t|] eqn:E; simpl;
      [|split; [done|by exists task]].
    split; [done|].
    destruct (decide (id = tid)) as [->|Hne].
    + exists (Task.broken now err t). rewrite lookup_insert_eq.
      rewrite Hl in E. injection E as <-. by_fields.
    + exists task. by rewrite lookup_insert_ne.
  - (* setParent *)
    split; [|done]. split; [done|].
    destruct (tasks (state p) !! id) as [t|] eqn:E; simpl;
      [|split; [done|by exists task]].
    destruct (tasks (state p) !! parentId) as [t'|] eqn:E'; simpl;
      [|split; [done|by exists task]].
    split; [done|].
    destruct (decide (parentId = tid)) as [->|Hne].
    + exists (Task.withChild id t'). rewrite lookup_insert_eq.
      rewrite Hl in E'. injection E' as <-. by_fields.
    + rewrite lookup_insert_ne by done.
      destruct (decide (id = tid)) as [->|Hne'].
      * exists (Task.withParent parentId t). rewrite lookup_insert_eq.
        rewrite Hl in E. injection E as <-. by_fields.
      * exists task. by rewrite lookup_insert_ne.
  - (* cleanup effect *)
    split; [|done]. split_and!; [done..|].
    exists task. split_and!; try done.
    apply filteredTasks_lookup_Some. split; [done|lia].
  - (* progression effect *)
    assert (Hidx' : currentIndex (progressionEffect p) = currentIndex p).
    { rewrite progressionEffect_currentIndex by done.
      by rewrite (heldOpenBy_not_complete tid p Hheld). }
    split; [|done].
    rewrite Hidx'. unfold progressionEffect.
    destruct (isCurrentChildComplete p (currentIndex p)); simpl.
    split_and!; [done..|]. by exists task.
Qed.

Lemma heldOpenBy_run tid evs : forall p,
  existsb (completes tid) evs = false ->
  heldOpenBy tid p ->
  heldOpenBy tid (run p evs) /\ currentIndex (run p evs) = currentIndex p.
Proof.
  induction evs as [|ev evs IH]; intros p Hevs Hheld; [done|].
  simpl in Hevs. apply orb_false_iff in Hevs as [Hev Hevs].
  destruct (heldOpenBy_step tid p ev Hev Hheld) as [Hheld' Hidx].
  destruct (IH (step p ev) Hevs Hheld') as [? ?].
  split; [done|]. simpl. unfold run in *. congruence.
Qed.

(** C4, as the code has it. While a task of the current step is [failed]
    and its id is not in [completedTaskIds], [currentIndex] stays where it
    is through any sequence of context calls and effect runs in which
    [complete] is not called for that task. *)
Theorem stall_on_failure (p : Provider) (tid : TaskId) (task : Task)
    (evs : list Event)
    (Hindex : 0 <= currentIndex p)
    (Htask : tasks (state p) !! tid = Some task)
    (Hid : Task.id task = tid)
    (Hstep : Task.index task = currentIndex p)
    (Hfailed : Task.status task = failed)
    (Hnever : tid ∉ completedTaskIds (state p))
    (Hevs : existsb (completes tid) evs = false) :
  currentIndex (run p evs) = currentIndex p.
Proof.
  apply (heldOpenBy_run tid evs p Hevs).
  repeat split; [done|done|]. exists task. repeat split; try done.
  by rewrite Hfailed.
Qed.

Lemma stall_on_failure_witness :
  currentIndex
    (run failedOnce
         [RunProgression; RunCleanup;
          RegisterTask "q8w1e5r" "Log" None; CompleteTask 120 "0-q8w1e5r";
          RunProgression; StartTask 130 "0-k3j9x2a"; RunProgression;
          RunProgression])
  = currentIndex failedOnce.
Proof.
  apply (stall_on_failure failedOnce "0-k3j9x2a"
           (Task.mk "0-k3j9x2a" "Shell: ls" failed (Some (mkError "exit 1"))
                    (Some 100) (Some 105) None [] 0)).
  - vm_compute. discriminate.
  - vm_compute. reflexivity.
  - reflexivity.
  - reflexivity.
  - reflexivity.
  - vm_compute. apply not_elem_of_nil.
  - vm_compute. reflexivity.
Defined.

(** C4, counterexample. The task of step 0 has failed; a second run of its
    body succeeds, [complete] is called, and the next evaluation advances.
    Likewise when the task had been completed before it failed: it is
    [failed], its id is in [completedTaskIds], and the evaluation advances. *)
Lemma stall_on_failure_counterexample :
  ((Task.status <$> tasks (state failedOnce) !! "0-k3j9x2a") = Some failed
   /\ currentIndex failedOnce = 0
   /\ currentIndex
        (run failedOnce
             [RunProgression; StartTask 110 "0-k3j9x2a";
              CompleteTask 115 "0-k3j9x2a"; RunProgression])
      = 1)
  /\ (let failedLater :=
        run rerunning [FailTask 120 "0-k3j9x2a" (mkError "exit 1")] in
      (Task.status <$> tasks (state failedLater) !! "0-k3j9x2a") = Some failed
      /\ currentIndex failedLater = 0
      /\ currentIndex (run failedLater [RunProgression]) = 1).
Proof. vm_compute. repeat split. Qed.

(** ** [completedTaskIds] *)

Lemma completedTaskIds_prefix now st action :
  completedTaskIds st `prefix_of` completedTaskIds (taskReducer now st action).
Proof.
  destruct action as [task|id|id|id err|id parentId|k]; simpl;
    try destruct (tasks st !! id); simpl; try done.
  - by apply prefix_app_r.
  - by destruct (tasks st !! parentId).
Qed.

Lemma completeRepeatedly_spec id nows : forall st,
  is_Some (tasks st !! id) ->
  is_Some (tasks (completeRepeatedly id nows st) !! id)
  /\ completedTaskIds (completeRepeatedly id nows st)
     = completedTaskIds st ++ replicate (length nows) id.
Proof.
  induction nows as [|now nows IH]; intros st [task Hl].
  - simpl. split; [by exists task|]. by rewrite app_nil_r.
  - change (completeRepeatedly id (now :: nows) st)
      with (completeRepeatedly id nows (taskReducer now st (COMPLETE_TASK id))).
    destruct (IH (taskReducer now st (COMPLETE_TASK id))) as [Hs ->].
    { simpl. rewrite Hl. simpl. rewrite lookup_insert_eq. by eexists. }
    split; [done|].
    simpl. rewrite Hl. simpl. by rewrite <- app_assoc.
Qed.

(** C2, as the code has it. [completedTaskIds] only grows: every store
    operation keeps the former list as a prefix. [complete(id)] on a task
    that is in the store appends [id] at every call: after [n] calls the list
    has gained [n] copies of [id], so the id is there once only if
    [complete(id)] was called once. *)
Theorem complete_appends_at_every_call
    (st : TaskState) (id : TaskId) (nows : list Z)
    (Hid : is_Some (tasks st !! id)) :
  (forall now action,
      completedTaskIds st
        `prefix_of` completedTaskIds (taskReducer now st action))
  /\ completedTaskIds (completeRepeatedly id nows st)
     = completedTaskIds st ++ replicate (length nows) id.
Proof.
  split.
  - intros now action. apply completedTaskIds_prefix.
  - by apply completeRepeatedly_spec.
Qed.

Lemma complete_appends_at_every_call_witness :
  completedTaskIds
    (completeRepeatedly "0-k3j9x2a" [105; 106; 107] (state failedOnce))
  = completedTaskIds (state failedOnce) ++ replicate 3 "0-k3j9x2a".
Proof.
  apply (complete_appends_at_every_call
           (state failedOnce) "0-k3j9x2a" [105; 106; 107]).
  vm_compute. eauto.
Defined.

(** C2, counterexample. [complete] called twice for the one registered task
    leaves its id twice in [completedTaskIds]. *)
Lemma single_completion_counterexample :
  completedTaskIds
    (state (run (mount [Step "A"; Step "B"])
                [RegisterTask "k3j9x2a" "Shell: ls" None;
                 CompleteTask 105 "0-k3j9x2a";
                 CompleteTask 106 "0-k3j9x2a"]))
  = ["0-k3j9x2a"; "0-k3j9x2a"].
Proof. vm_compute. reflexivity. Qed.

(** ** [setParent] *)

(** C5, as the code has it. For two different tasks of the store,
    [setParent(id, p)] sets [parentId] of [id] to [p], appends [id] to the
    [childIds] of [p], takes [id] out of [rootTaskIds] and leaves every
    other task and [completedTaskIds] alone. A second [setParent(id, p)]
    changes nothing but the [childIds] of [p], which gain [id] once more. A
    later [setParent(id, q)] naming a third task [q] sets [parentId] of
    [id] to [q] and appends [id] to the [childIds] of [q], while [id] stays
    in the [childIds] of [p]. *)
Theorem setParent_links_again
    (now : Z) (st : TaskState) (id p : TaskId) (task parent : Task)
    (Hid : tasks st !! id = Some task)
    (Hp : tasks st !! p = Some parent)
    (Hne : id <> p) :
  let once := taskReducer now st (SET_PARENT id p) in
  let twice := taskReducer now once (SET_PARENT id p) in
  (tasks once !! id
   = Some (Task.mk (Task.id task) (Task.name task) (Task.status task)
                   (Task.error task) (Task.startTime task)
                   (Task.endTime task) (Some p) (Task.childIds task)
                   (Task.index task))
   /\ tasks once !! p
      = Some (Task.mk (Task.id parent) (Task.name parent)
                      (Task.status parent) (Task.error parent)
                      (Task.startTime parent) (Task.endTime parent)
                      (Task.parentId parent) (Task.childIds parent ++ [id])
                      (Task.index parent))
   /\ (forall tid, tid <> id -> tid <> p ->
                   tasks once !! tid = tasks st !! tid)
   /\ rootTaskIds once = filter (fun tid => tid <> id) (rootTaskIds st)
   /\ (id ∉ rootTaskIds once)
   /\ completedTaskIds once = completedTaskIds st)
  /\ (tasks twice !! id = tasks once !! id
      /\ tasks twice !! p
         = Some (Task.mk (Task.id parent) (Task.name parent)
                         (Task.status parent) (Task.error parent)
                         (Task.startTime parent) (Task.endTime parent)
                         (Task.parentId parent)
                         (Task.childIds parent ++ [id; id])
                         (Task.index parent))
      /\ (forall tid, tid <> p -> tasks twice !! tid = tasks once !! tid)
      /\ rootTaskIds twice = rootTaskIds once
      /\ completedTaskIds twice = completedTaskIds once)
  /\ (forall (q : TaskId) (other : Task),
        tasks st !! q = Some other -> id <> q -> p <> q ->
        let moved := taskReducer now once (SET_PARENT id q) in
        tasks moved !! id
        = Some (Task.mk (Task.id task) (Task.name task) (Task.status task)
                        (Task.error task) (Task.startTime task)
                        (Task.endTime task) (Some q) (Task.childIds task)
                        (Task.index task))
        /\ tasks moved !! q
           = Some (Task.mk (Task.id other) (Task.name other)
                           (Task.status other) (Task.error other)
                           (Task.startTime other) (Task.endTime other)
                           (Task.parentId other)
                           (Task.childIds other ++ [id])
                           (Task.index other))
        /\ tasks moved !! p
           = Some (Task.mk (Task.id parent) (Task.name parent)
                           (Task.status parent) (Task.error parent)
                           (Task.startTime parent) (Task.endTime parent)
                           (Task.parentId parent)
                           (Task.childIds parent ++ [id])
                           (Task.index parent))).
Proof.
  intros once twice.
  assert (Honce : once =
    {| tasks := <[p := Task.withChild id parent]>
                  (<[id := Task.withParent p task]> (tasks st));
       rootTaskIds := filter (fun tid => tid <> id) (rootTaskIds st);
       completedTaskIds := completedTaskIds st |}).
  { subst once. simpl. by rewrite Hid, Hp. }
  assert (Honce_id : tasks once !! id = Some (Task.withParent p task)).
  { rewrite Honce. simpl.
    rewrite lookup_insert_ne by done. apply lookup_insert_eq. }
  assert (Honce_p : tasks once !! p = Some (Task.withChild id parent)).
  { rewrite Honce. simpl. apply lookup_insert_eq. }
  assert (Htwice : twice =
    {| tasks := <[p := Task.withChild id (Task.withChild id parent)]>
                  (<[id := Task.withParent p (Task.withParent p task)]>
                     (tasks once));
       rootTaskIds := filter (fun tid => tid <> id) (rootTaskIds once);
       completedTaskIds := completedTaskIds once |}).
  { subst twice. simpl. by rewrite Honce_id, Honce_p. }
  split; [|split].
  - split_and!.
    + exact Honce_id.
    + exact Honce_p.
    + intros tid H1 H2. rewrite Honce. simpl.
      by rewrite !lookup_insert_ne by done.
    + by rewrite Honce.
    + rewrite Honce. simpl. intros Hin.
      by apply list_elem_of_filter in Hin as [Hin _].
    + by rewrite Honce.
  - split_and!.
    + rewrite Htwice. simpl. rewrite lookup_insert_ne by done.
      rewrite lookup_insert_eq. by rewrite Honce_id.
    + rewrite Htwice. simpl. rewrite lookup_insert_eq.
      unfold Task.withChild. simpl. by rewrite <- app_assoc.
    + intros tid Htid. rewrite Htwice. simpl.
      rewrite lookup_insert_ne by done.
      destruct (decide (tid = id)) as [->|Hne'].
      * rewrite lookup_insert_eq. by rewrite Honce_id.
      * by rewrite lookup_insert_ne.
    + rewrite Htwice, Honce. simpl.
      rewrite list_filter_filter. apply list_filter_iff. tauto.
    + by rewrite Htwice.
  - intros q other Hq Hnq Hpq moved.
    assert (Honce_q : tasks once !! q = Some other).
    { rewrite Honce. simpl. by rewrite !lookup_insert_ne by done. }
    assert (Hmoved : moved =
      {| tasks := <[q := Task.withChild id other]>
                    (<[id := Task.withParent q (Task.withParent p task)]>
                       (tasks once));
         rootTaskIds := filter (fun tid => tid <> id) (rootTaskIds once);
         completedTaskIds := completedTaskIds once |}).
    { subst moved. simpl. by rewrite Honce_id, Honce_q. }
    split_and!.
    + rewrite Hmoved. simpl. rewrite lookup_insert_ne by done.
      by rewrite lookup_insert_eq.
    + rewrite Hmoved. simpl. apply lookup_insert_eq.
    + rewrite Hmoved. simpl. by rewrite !lookup_insert_ne by done.
Qed.

Lemma setParent_links_again_witness :
  let once :=
    taskReducer 0 parentAndChild (SET_PARENT "0-c000000" "0-p000000") in
  let twice := taskReducer 0 once (SET_PARENT "0-c000000" "0-p000000") in
  dom (tasks parentAndChild) = {["0-p000000"; "0-c000000"]}
  /\ (Task.parentId <$> tasks parentAndChild !! "0-c000000") = Some None
  /\ (Task.childIds <$> tasks parentAndChild !! "0-p000000") = Some []
  /\ rootTaskIds parentAndChild = ["0-p000000"; "0-c000000"]
  /\ (Task.parentId <$> tasks once !! "0-c000000")
     = Some (Some "0-p000000")
  /\ (Task.childIds <$> tasks once !! "0-p000000") = Some ["0-c000000"]
  /\ rootTaskIds once = ["0-p000000"]
  /\ (Task.childIds <$> tasks twice !! "0-p000000")
     = Some ["0-c000000"; "0-c000000"]
  /\ rootTaskIds twice = rootTaskIds once.
Proof.
  destruct (setParent_links_again 0 parentAndChild "0-c000000" "0-p000000"
              (newTask 0 "c000000" "Log" None)
              (newTask 0 "p000000" "Prompt: name" None))
    as ((Hc & Hp & _ & Hroots & _) & (_ & Hp' & _ & Hroot & _) & _).
  - vm_compute. reflexivity.
  - vm_compute. reflexivity.
  - discriminate.
  - split; [vm_compute; reflexivity|].
    split; [vm_compute; reflexivity|].
    split; [vm_compute; reflexivity|].
    split; [vm_compute; reflexivity|].
    split; [by rewrite Hc|]. split; [by rewrite Hp|].
    split; [rewrite Hroots; vm_compute; reflexivity|].
    split; [by rewrite Hp'|exact Hroot].
Defined.

(** C5, counterexample. The second [setParent] with the same arguments
    changes the store, and a later [setParent] naming another parent is not
    a no-op: it rewrites [parentId] and links the task under both parents. *)
Lemma setParent_idempotent_counterexample :
  let once := taskReducer 0 siblings (SET_PARENT "0-c000000" "0-p000000") in
  let twice := taskReducer 0 once (SET_PARENT "0-c000000" "0-p000000") in
  let moved := taskReducer 0 once (SET_PARENT "0-c000000" "0-q000000") in
  twice <> once
  /\ (Task.childIds <$> tasks once !! "0-p000000") = Some ["0-c000000"]
  /\ (Task.childIds <$> tasks twice !! "0-p000000")
     = Some ["0-c000000"; "0-c000000"]
  /\ moved <> once
  /\ (Task.parentId <$> tasks once !! "0-c000000") = Some (Some "0-p000000")
  /\ (Task.parentId <$> tasks moved !! "0-c000000") = Some (Some "0-q000000")
  /\ (Task.childIds <$> tasks moved !! "0-p000000") = Some ["0-c000000"]
  /\ (Task.childIds <$> tasks moved !! "0-q000000") = Some ["0-c000000"].
Proof.
  intros once twice moved.
  assert (H1 : (Task.childIds <$> tasks once !! "0-p000000")
               = Some ["0-c000000"]) by (vm_compute; reflexivity).
  assert (H2 : (Task.childIds <$> tasks twice !! "0-p000000")
               = Some ["0-c000000"; "0-c000000"]) by (vm_compute; reflexivity).
  assert (H3 : (Task.parentId <$> tasks once !! "0-c000000")
               = Some (Some "0-p000000")) by (vm_compute; reflexivity).
  assert (H4 : (Task.parentId <$> tasks moved !! "0-c000000")
               = Some (Some "0-q000000")) by (vm_compute; reflexivity).
  split_and!; [|done|done| |done|done|vm_compute; reflexivity ..].
  - intros E. rewrite E, H1 in H2. discriminate.
  - intros E. rewrite E, H3 in H4. discriminate.
Qed.

(** ** [rootTaskIds] and [childIds] *)

Lemma elem_of_parentsOf st tid p :
  p ∈ parentsOf st tid
  <-> exists parent, tasks st !! p = Some parent /\ tid ∈ Task.childIds parent.
Proof.
  unfold parentsOf. rewrite list_elem_of_fmap. split.
  - intros [[k parent] [-> Hin]].
    apply list_elem_of_filter in Hin as [Hc Hin].
    apply elem_of_map_to_list in Hin. by exists parent.
  - intros [parent [Hl Hc]]. exists (p, parent). split; [done|].
    apply list_elem_of_filter. split; [done|]. by apply elem_of_map_to_list.
Qed.

Lemma parentsOf_nil st tid :
  parentsOf st tid = []
  <-> forall p parent, tasks st !! p = Some parent -> tid ∉ Task.childIds parent.
Proof.
  split.
  - intros E p parent Hl Hc.
    assert (Hin : p ∈ parentsOf st tid) by (apply elem_of_parentsOf; eauto).
    rewrite E in Hin. by apply elem_of_nil in Hin.
  - intros H. destruct (parentsOf st tid) as [|p l] eqn:E; [done|].
    assert (Hin : p ∈ parentsOf st tid) by (rewrite E; left).
    apply elem_of_parentsOf in Hin as [parent [Hl Hc]].
    by destruct (H p parent Hl).
Qed.

Lemma rootsApart_update st id task task' done :
  tasks st !! id = Some task ->
  Task.childIds task' = Task.childIds task ->
  rootsApart st ->
  rootsApart {| tasks := <[id := task']> (tasks st);
                rootTaskIds := rootTaskIds st;
                completedTaskIds := done |}.
Proof.
  intros E Hc [IHdom IHapart]. split; simpl.
  - intros tid Hin. destruct (decide (id = tid)) as [->|Hne];
      [rewrite lookup_insert_eq; by eexists|].
    rewrite lookup_insert_ne by done. by apply IHdom.
  - intros tid Hin. apply parentsOf_nil. intros p parent Hl. simpl in Hl.
    pose proof (proj1 (parentsOf_nil st tid) (IHapart tid Hin)) as Hold.
    destruct (decide (id = p)) as [->|Hne].
    + rewrite lookup_insert_eq in Hl. injection Hl as <-.
      rewrite Hc. by apply (Hold p task).
    + rewrite lookup_insert_ne in Hl by done. by apply (Hold p parent).
Qed.

Lemma rootsApart_reachable st : reachable st -> rootsApart st.
Proof.
  induction 1 as [|st ci random name parentId _ [IHdom IHapart] [Hnew Hnochild]
                 |st now id _ [IHdom IHapart]
                 |st now id _ [IHdom IHapart]
                 |st now id err _ [IHdom IHapart]
                 |st id parentId _ [IHdom IHapart]
                 |st k _ [IHdom IHapart]].
  - split; intros tid Hin; by apply elem_of_nil in Hin.
  - (* registerTask *)
    set (nid := newTaskId ci random) in *.
    assert (Hroot : forall tid,
               tid ∈ rootTaskIds
                       (taskReducer 0 st
                          (REGISTER_TASK (newTask ci random name parentId))) ->
               tid ∈ rootTaskIds st \/ tid = nid).
    { intros tid. simpl. destruct (truthy parentId); [by left|].
      rewrite elem_of_app, list_elem_of_singleton. tauto. }
    split.
    + intros tid Hin. simpl. fold nid.
      destruct (Hroot tid Hin) as [Hold| ->].
      * destruct (decide (nid = tid)) as [->|Hne];
          [rewrite lookup_insert_eq; by eexists|].
        rewrite lookup_insert_ne by done. by apply IHdom.
      * rewrite lookup_insert_eq. by eexists.
    + intros tid Hin. apply parentsOf_nil. intros p parent Hl. simpl in Hl.
      fold nid in Hl.
      destruct (decide (nid = p)) as [<-|Hne].
      * rewrite lookup_insert_eq in Hl. injection Hl as <-. simpl.
        apply not_elem_of_nil.
      * rewrite lookup_insert_ne in Hl by done.
        destruct (Hroot tid Hin) as [Hold| ->].
        -- by apply (proj1 (parentsOf_nil st tid) (IHapart tid Hold) p).
        -- by apply (proj1 (parentsOf_nil st nid) Hnochild p).
  - (* startTask *)
    simpl. destruct (tasks st !! id) as [task|] eqn:E; [|done].
    by apply (rootsApart_update st id task).
  - (* completeTask *)
    simpl. destruct (tasks st !! id) as [task|] eqn:E; [|done].
    by apply (rootsApart_update st id task).
  - (* failTask *)
    simpl. destruct (tasks st !! id) as [task|] eqn:E; [|done].
    by apply (rootsApart_update st id task).
  - (* setParent *)
    simpl. destruct (tasks st !! id) as [task|] eqn:E; [|done].
    destruct (tasks st !! parentId) as [parent|] eqn:E'; [|done].
    split; simpl.
    + intros tid Hin. apply list_elem_of_filter in Hin as [Hne Hin].
      destruct (decide (parentId = tid)) as [->|Hne'];
        [rewrite lookup_insert_eq; by eexists|].
      rewrite lookup_insert_ne by done.
      rewrite lookup_insert_ne by done. by apply IHdom.
    + intros tid Hin. apply list_elem_of_filter in Hin as [Hne Hin].
      apply parentsOf_nil. intros p par Hl. simpl in Hl.
      pose proof (proj1 (parentsOf_nil st tid) (IHapart tid Hin)) as Hold.
      destruct (decide (parentId = p)) as [->|Hne'].
      * rewrite lookup_insert_eq in Hl. injection Hl as <-. simpl.
        rewrite elem_of_app, list_elem_of_singleton.
        intros [Hc|Hc]; [by apply (Hold p parent)|done].
      * rewrite lookup_insert_ne in Hl by done.
        destruct (decide (id = p)) as [->|Hne''].
        -- rewrite lookup_insert_eq in Hl. injection Hl as <-. simpl.
           by apply (Hold p task).
        -- rewrite lookup_insert_ne in Hl by done. by apply (Hold p par).
  - (* pruneAbove *)
    split; simpl.
    + intros tid Hin. by apply list_elem_of_filter in Hin as [Hs _].
    + intros tid Hin. apply list_elem_of_filter in Hin as [_ Hin].
      apply parentsOf_nil. intros p parent Hl. simpl in Hl.
      apply filteredTasks_lookup_Some in Hl as [Hl _].
      by apply (proj1 (parentsOf_nil st tid) (IHapart tid Hin) p).
Qed.

(** C7, as the code has it. In every store reached through the context
    operations with registrations that draw unused ids, no id of
    [rootTaskIds] is in the [childIds] of a task. Registering a task without
    a parent id puts it in [rootTaskIds]; registering it with a parent id
    puts it neither in [rootTaskIds] nor in any [childIds]. *)
Theorem roots_are_not_children (st : TaskState) (Hreach : reachable st) :
  (forall tid p parent,
      tid ∈ rootTaskIds st -> tasks st !! p = Some parent ->
      tid ∉ Task.childIds parent)
  /\ (forall currentIndex random name parentId,
        unused (newTaskId currentIndex random) st ->
        let st' := taskReducer 0 st
                     (REGISTER_TASK
                        (newTask currentIndex random name parentId)) in
        parentsOf st' (newTaskId currentIndex random) = []
        /\ (newTaskId currentIndex random ∈ rootTaskIds st'
            <-> truthy parentId = false)).
Proof.
  pose proof (rootsApart_reachable st Hreach) as [Hdom Hapart].
  split.
  - intros tid p parent Hin Hl.
    by apply (proj1 (parentsOf_nil st tid) (Hapart tid Hin) p).
  - intros ci random name parentId [Hnew Hnochild] st'.
    set (nid := newTaskId ci random) in *.
    assert (Hnotroot : nid ∉ rootTaskIds st).
    { intros Hin. destruct (Hdom nid Hin) as [task Hl]. congruence. }
    split.
    + apply parentsOf_nil. intros p parent Hl. subst st'. simpl in Hl.
      fold nid in Hl.
      destruct (decide (nid = p)) as [<-|Hne].
      * rewrite lookup_insert_eq in Hl. injection Hl as <-. simpl.
        apply not_elem_of_nil.
      * rewrite lookup_insert_ne in Hl by done.
        by apply (proj1 (parentsOf_nil st nid) Hnochild p).
    + subst st'. simpl. fold nid. destruct (truthy parentId).
      * split; [done|discriminate].
      * split; [done|]. intros _.
        rewrite elem_of_app, list_elem_of_singleton. by right.
Qed.

Lemma roots_are_not_children_witness :
  let st :=
    taskReducer 0
      (taskReducer 0
         (taskReducer 0 initialState
            (REGISTER_TASK (newTask 0 "p000000" "Prompt: name" None)))
         (REGISTER_TASK (newTask 0 "c000000" "Log" None)))
      (SET_PARENT "0-c000000" "0-p000000") in
  rootTaskIds st = ["0-p000000"]
  /\ (forall tid p parent,
        tid ∈ rootTaskIds st -> tasks st !! p = Some parent ->
        tid ∉ Task.childIds parent).
Proof.
  intros st. split; [vm_compute; reflexivity|].
  apply (roots_are_not_children st).
  apply reachable_setParent.
  apply reachable_register.
  - apply reachable_register.
    + apply reachable_initial.
    + split; vm_compute; reflexivity.
  - split; vm_compute; reflexivity.
Defined.

(** C7, counterexample. A task registered with a parent id is in the store
    but in neither [rootTaskIds] nor the [childIds] of its parent or of any
    other task. *)
Lemma one_place_counterexample :
  (Task.parentId <$> tasks nested !! "0-c000000") = Some (Some "0-p000000")
  /\ (Task.childIds <$> tasks nested !! "0-p000000") = Some []
  /\ rootTaskIds nested = ["0-p000000"]
  /\ parentsOf nested "0-c000000" = [].
Proof. vm_compute. repeat split. Qed.

(** ** The task handle *)

(** C8, as the code has it. Without a registered id, [execute] rejects with
    the not-initialized error and dispatches nothing. With one, it dispatches
    [start(id)] before it awaits the body; when the body resolves it
    dispatches [complete] and resolves with [undefined], the body's value
    being dropped; when the body throws it dispatches [fail] with the
    normalized error and rejects with the very value thrown. [complete] and
    [fail] carry the id the handle holds once the body has settled. If that
    is still [id] and the task is in the store, the store ends with the task
    [completed] and its id appended to [completedTaskIds], or [failed] with
    the normalized error recorded and [completedTaskIds] as it was. *)
Theorem execute_brackets_the_body
    (now : Z) (st : TaskState) (id : TaskId) (task : Task)
    (later : option TaskId) (value thrown : JsValue)
    (Hregistered : truthy (Some id) = true)
    (Hid : tasks st !! id = Some task) :
  let notInitialized := Rejected (JsError (mkError "Task not initialized")) in
  let ok := execute (Some id) (Some (Fulfilled value)) later in
  let ko := execute (Some id) (Some (Rejected thrown)) later in
  (forall fn, execute None fn later = ([], Some notInitialized)
              /\ execute (Some "") fn later = ([], Some notInitialized))
  /\ ok = ([Dispatched (START_TASK id); Awaited;
            Dispatched (COMPLETE_TASK (refId later))],
           Some (Fulfilled JsUndefined))
  /\ ko = ([Dispatched (START_TASK id); Awaited;
            Dispatched (FAIL_TASK (refId later) (normalizeError thrown))],
           Some (Rejected thrown))
  /\ (later = Some id ->
      tasks (settle now st ok.1) !! id
      = Some (Task.finished now (Task.started now task))
      /\ completedTaskIds (settle now st ok.1) = completedTaskIds st ++ [id]
      /\ tasks (settle now st ko.1) !! id
         = Some (Task.broken now (normalizeError thrown)
                             (Task.started now task))
      /\ completedTaskIds (settle now st ko.1) = completedTaskIds st).
Proof.
  intros notInitialized ok ko.
  assert (Hok : ok = ([Dispatched (START_TASK id); Awaited;
                       Dispatched (COMPLETE_TASK (refId later))],
                      Some (Fulfilled JsUndefined))).
  { subst ok. unfold execute. by rewrite Hregistered. }
  assert (Hko : ko = ([Dispatched (START_TASK id); Awaited;
                       Dispatched (FAIL_TASK (refId later)
                                             (normalizeError thrown))],
                      Some (Rejected thrown))).
  { subst ko. unfold execute. by rewrite Hregistered. }
  split_and!; try done.
  intros ->. rewrite Hok, Hko. simpl.
  rewrite Hid. simpl. rewrite !lookup_insert_eq. simpl.
  by rewrite !lookup_insert_eq.
Qed.

Lemma execute_brackets_the_body_witness :
  let st := state (run (mount [Step "A"; Step "B"])
                       [RegisterTask "k3j9x2a" "FileReader: a" None]) in
  let ok := execute (Some "0-k3j9x2a") (Some (Fulfilled (JsString "data")))
                    (Some "0-k3j9x2a") in
  ok.2 = Some (Fulfilled JsUndefined)
  /\ (Task.status <$> tasks (settle 7 st ok.1) !! "0-k3j9x2a")
     = Some completed.
Proof.
  intros st ok.
  destruct (execute_brackets_the_body 7 st "0-k3j9x2a"
              (newTask 0 "k3j9x2a" "FileReader: a" None)
              (Some "0-k3j9x2a") (JsString "data") (JsString "boom"))
    as (_ & Hok & _ & Hstore).
  - reflexivity.
  - vm_compute. reflexivity.
  - split.
    + subst ok. by rewrite Hok.
    + destruct (Hstore eq_refl) as (Hdone & _).
      subst ok. by rewrite Hdone.
Defined.

(** C8, counterexample. The body resolves with ["data"]; the promise
    [execute] returns resolves with [undefined]. *)
Lemma execute_result_counterexample :
  (execute (Some "0-k3j9x2a") (Some (Fulfilled (JsString "data")))
           (Some "0-k3j9x2a")).2
  = Some (Fulfilled JsUndefined)
  /\ Some (Fulfilled JsUndefined) <> Some (Fulfilled (JsString "data")).
Proof. split; [reflexivity|discriminate]. Qed.

(** ** Further properties of the store *)

Lemma filteredTasks_twice j k m :
  filteredTasks k (filteredTasks j m) = filteredTasks (Z.min j k) m.
Proof.
  rewrite !filteredTasks_filter, map_filter_filter.
  apply map_filter_ext. intros tid task _. simpl. lia.
Qed.

(** X3. Pruning composes: [pruneAbove(j)] followed by [pruneAbove(k)] leaves
    the store [pruneAbove(min(j, k))] leaves; pruning twice at the same
    index is pruning once. *)
Theorem pruneAbove_twice (now : Z) (st : TaskState) (j k : Z) :
  taskReducer now (taskReducer now st (CLEANUP_TASKS j)) (CLEANUP_TASKS k)
  = taskReducer now st (CLEANUP_TASKS (Z.min j k))
  /\ taskReducer now (taskReducer now st (CLEANUP_TASKS k)) (CLEANUP_TASKS k)
     = taskReducer now st (CLEANUP_TASKS k).
Proof.
  assert (H : forall a b,
             taskReducer now (taskReducer now st (CLEANUP_TASKS a))
                         (CLEANUP_TASKS b)
             = taskReducer now st (CLEANUP_TASKS (Z.min a b))).
  { intros a b. simpl. rewrite filteredTasks_twice. f_equal.
    rewrite list_filter_filter. apply list_filter_iff. intros tid.
    rewrite !filteredTasks_filter. split.
    - by intros [H _].
    - intros [task Hl]. split; [by exists task|].
      apply map_lookup_filter_Some in Hl as [Hl Hle]. simpl in Hle.
      exists task. apply map_lookup_filter_Some. split; [done|]. simpl. lia. }
  split; [apply H|]. rewrite H. by rewrite Z.min_id.
Qed.

(** ** Invariants of the sequencer *)

Lemma wellFormed_mount children : wellFormed (mount children).
Proof.
  split; simpl; try (intros tid task H; by rewrite lookup_empty in H).
  - lia.
  - intros tid H. by apply elem_of_nil in H.
Qed.

Lemma step_currentIndex p ev :
  currentIndex p <= currentIndex (step p ev) <= currentIndex p + 1.
Proof.
  destruct ev; simpl; try lia.
  unfold progressionEffect.
  destruct (isCurrentChildComplete p (currentIndex p)) as [c r]. simpl.
  destruct (c && default false (r !! currentIndex p) && _); lia.
Qed.

Lemma step_childrenArray p ev : childrenArray (step p ev) = childrenArray p.
Proof.
  destruct ev; simpl; try done.
  unfold progressionEffect.
  by destruct (isCurrentChildComplete p (currentIndex p)).
Qed.

Lemma run_childrenArray evs : forall p,
  childrenArray (run p evs) = childrenArray p.
Proof.
  induction evs as [|ev evs IH]; intros p; [done|].
  simpl. unfold run in IH. by rewrite IH, step_childrenArray.
Qed.

Lemma run_currentIndex_mono evs : forall p,
  currentIndex p <= currentIndex (run p evs).
Proof.
  induction evs as [|ev evs IH]; intros p; [simpl; lia|].
  simpl. pose proof (step_currentIndex p ev). pose proof (IH (step p ev)).
  unfold run in *. lia.
Qed.

(** A task rewritten in place, its id and step kept, keeps the invariants
    as long as it is not turned [completed] behind the back of
    [completedTaskIds]. *)
Lemma wellFormed_update p id task task' done :
  wellFormed p ->
  tasks (state p) !! id = Some task ->
  Task.id task' = Task.id task ->
  Task.index task' = Task.index task ->
  (Task.status task' = completed -> id ∈ done) ->
  (forall tid, tid ∈ completedTaskIds (state p) -> tid ∈ done) ->
  wellFormed
    {| childrenArray := childrenArray p;
       state := {| tasks := <[id := task']> (tasks (state p));
                   rootTaskIds := rootTaskIds (state p);
                   completedTaskIds := done |};
       currentIndex := currentIndex p;
       previousCompletionState := previousCompletionState p |}.
Proof.
  intros [Hidx Htasks Hcompl Hearlier Hroots] Hl Hid Hindex Hstatus Hdone.
  destruct (Htasks id task Hl) as [Hkey Hrange].
  split; simpl; [done|..].
  - intros tid t Ht. destruct (decide (id = tid)) as [->|Hne].
    + rewrite lookup_insert_eq in Ht. injection Ht as <-.
      rewrite Hid, Hindex. done.
    + rewrite lookup_insert_ne in Ht by done. by apply Htasks.
  - intros tid t Ht Hst. destruct (decide (id = tid)) as [->|Hne].
    + rewrite lookup_insert_eq in Ht. injection Ht as <-. by apply Hstatus.
    + rewrite lookup_insert_ne in Ht by done. by apply Hdone, (Hcompl tid t).
  - intros tid t Ht Hlt. apply Hdone. destruct (decide (id = tid)) as [->|Hne].
    + rewrite lookup_insert_eq in Ht. injection Ht as <-.
      rewrite Hindex in Hlt. by apply (Hearlier tid task).
    + rewrite lookup_insert_ne in Ht by done. by apply (Hearlier tid t).
  - intros tid Hin. apply lookup_insert_is_Some'. right. by apply Hroots.
Qed.

Lemma wellFormed_step p ev : wellFormed p -> wellFormed (step p ev).
Proof.
  intros Hwf.
  pose proof Hwf as [Hidx Htasks Hcompl Hearlier Hroots].
  destruct ev as [random name parentId|now id|now id|now id err
                 |id parentId| |]; simpl.
  - (* registerTask *)
    set (nid := newTaskId (currentIndex p) random).
    split; simpl; fold nid; [done|..].
    + intros tid t Ht. destruct (decide (nid = tid)) as [<-|Hne].
      * rewrite lookup_insert_eq in Ht. injection Ht as <-. simpl.
        split; [done|lia].
      * rewrite lookup_insert_ne in Ht by done. by apply Htasks.
    + intros tid t Ht Hst. destruct (decide (nid = tid)) as [<-|Hne].
      * rewrite lookup_insert_eq in Ht. injection Ht as <-. done.
      * rewrite lookup_insert_ne in Ht by done. by apply (Hcompl tid t).
    + intros tid t Ht Hlt. destruct (decide (nid = tid)) as [<-|Hne].
      * rewrite lookup_insert_eq in Ht. injection Ht as <-. simpl in Hlt. lia.
      * rewrite lookup_insert_ne in Ht by done. by apply (Hearlier tid t).
    + intros tid Hin. apply lookup_insert_is_Some'.
      destruct (truthy parentId); [right; by apply Hroots|].
      apply elem_of_app in Hin as [Hin|Hin]; [right; by apply Hroots|].
      left. by apply list_elem_of_singleton in Hin.
  - (* startTask *)
    unfold dispatch. simpl.
    destruct (tasks (state p) !! id) as [t|] eqn:E; [|by destruct p].
    by apply (wellFormed_update p id t).
  - (* completeTask *)
    unfold dispatch. simpl.
    destruct (tasks (state p) !! id) as [t|] eqn:E; [|by destruct p].
    apply (wellFormed_update p id t); try done.
    + intros _. apply elem_of_app. right. by apply list_elem_of_singleton.
    + intros tid Hin. apply elem_of_app. by left.
  - (* failTask *)
    unfold dispatch. simpl.
    destruct (tasks (state p) !! id) as [t|] eqn:E; [|by destruct p].
    by apply (wellFormed_update p id t).
  - (* setParent *)
    unfold dispatch. simpl.
    destruct (tasks (state p) !! id) as [t|] eqn:E; [|by destruct p].
    destruct (tasks (state p) !! parentId) as [t'|] eqn:E'; [|by destruct p].
    split; simpl; [done|..].
    + intros tid x Hx. destruct (decide (parentId = tid)) as [->|Hne].
      * rewrite lookup_insert_eq in Hx. injection Hx as <-. simpl.
        by apply Htasks.
      * rewrite lookup_insert_ne in Hx by done.
        destruct (decide (id = tid)) as [->|Hne'].
        -- rewrite lookup_insert_eq in Hx. injection Hx as <-. simpl.
           by apply Htasks.
        -- rewrite lookup_insert_ne in Hx by done. by apply Htasks.
    + intros tid x Hx Hst. destruct (decide (parentId = tid)) as [->|Hne].
      * rewrite lookup_insert_eq in Hx. injection Hx as <-. simpl in Hst.
        by apply (Hcompl tid t').
      * rewrite lookup_insert_ne in Hx by done.
        destruct (decide (id = tid)) as [->|Hne'].
        -- rewrite lookup_insert_eq in Hx. injection Hx as <-. simpl in Hst.
           by apply (Hcompl tid t).
        -- rewrite lookup_insert_ne in Hx by done. by apply (Hcompl tid x).
    + intros tid x Hx Hlt. destruct (decide (parentId = tid)) as [->|Hne].
      * rewrite lookup_insert_eq in Hx. injection Hx as <-. simpl in Hlt.
        by apply (Hearlier tid t').
      * rewrite lookup_insert_ne in Hx by done.
        destruct (decide (id = tid)) as [->|Hne'].
        -- rewrite lookup_insert_eq in Hx. injection Hx as <-. simpl in Hlt.
           by apply (Hearlier tid t).
        -- rewrite lookup_insert_ne in Hx by done. by apply (Hearlier tid x).
    + intros tid Hin. apply list_elem_of_filter in Hin as [_ Hin].
      apply lookup_insert_is_Some'. right.
      apply lookup_insert_is_Some'. right. by apply Hroots.
  - (* cleanup effect *)
    split; simpl; [done|..].
    + intros tid t Ht. apply filteredTasks_lookup_Some in Ht as [Ht _].
      by apply Htasks.
    + intros tid t Ht. apply filteredTasks_lookup_Some in Ht as [Ht _].
      by apply Hcompl.
    + intros tid t Ht. apply filteredTasks_lookup_Some in Ht as [Ht _].
      by apply Hearlier.
    + intros tid Hin. by apply list_elem_of_filter in Hin as [Hs _].
  - (* progression effect *)
    pose proof (progressionEffect_currentIndex p (proj1 Hidx)) as Hnext.
    assert (Hst : state (progressionEffect p) = state p).
    { unfold progressionEffect.
      by destruct (isCurrentChildComplete p (currentIndex p)). }
    assert (Hch : childrenArray (progressionEffect p) = childrenArray p)
      by apply (step_childrenArray p RunProgression).
    destruct (isComplete (state p) (currentIndex p)) eqn:Hcomplete;
      [destruct (bool_decide (currentIndex p
                              < Z.of_nat (length (childrenArray p)) - 1))
         eqn:Hlast|]; simpl in Hnext.
    + (* the step is complete and not the last: advance *)
      apply bool_decide_eq_true in Hlast.
      apply isComplete_true in Hcomplete as [_ Hall].
      split; rewrite ?Hst, ?Hch, ?Hnext; [lia|..].
      * intros tid t Ht. destruct (Htasks tid t Ht). split; [done|lia].
      * done.
      * intros tid t Ht Hlt. destruct (Htasks tid t Ht) as [Hkey Hrange].
        destruct (decide (Task.index t = currentIndex p)) as [Heq|Hneq].
        -- destruct (Hall tid t Ht Heq) as [Hin|Hs];
             [by rewrite Hkey in Hin|by apply (Hcompl tid t)].
        -- apply (Hearlier tid t Ht). lia.
      * done.
    + split; rewrite ?Hst, ?Hch, ?Hnext; done.
    + split; rewrite ?Hst, ?Hch, ?Hnext; done.
Qed.

Lemma wellFormed_run evs : forall p, wellFormed p -> wellFormed (run p evs).
Proof.
  induction evs as [|ev evs IH]; intros p Hwf; [done|].
  simpl. apply IH. by apply wellFormed_step.
Qed.

(** X8. The sequencer walks the steps in order. However the context is
    used, [currentIndex] of a mounted provider stays between 0 and the index
    of the last step, names a step node whenever there is one, is never
    lowered by anything that happens, and is raised by one at most at a
    time; once on the last step it stays there. *)
Theorem sequencer_walks_in_order
    (children : list ReactElement) (evs more : list Event) (ev : Event) :
  let p := run (mount children) evs in
  0 <= currentIndex p <= Z.max 0 (Z.of_nat (length children) - 1)
  /\ (children <> [] -> is_Some (nodeAt children (currentIndex p)))
  /\ currentIndex p <= currentIndex (step p ev) <= currentIndex p + 1
  /\ currentIndex p <= currentIndex (run p more)
  /\ (currentIndex p = Z.of_nat (length children) - 1 ->
      currentIndex (run p more) = currentIndex p).
Proof.
  intros p.
  assert (Hwf : wellFormed p) by apply wellFormed_run, wellFormed_mount.
  assert (Hch : childrenArray p = children)
    by apply (run_childrenArray evs (mount children)).
  pose proof (wf_index p Hwf) as Hidx. rewrite Hch in Hidx.
  split; [exact Hidx|]. split; [|split; [|split]].
  - intros Hne. unfold nodeAt. rewrite bool_decide_eq_true_2 by lia.
    apply lookup_lt_is_Some. destruct children; [done|]. simpl in *. lia.
  - apply step_currentIndex.
  - apply run_currentIndex_mono.
  - intros Hlast. pose proof (run_currentIndex_mono more p).
    pose proof (wf_index _ (wellFormed_run more p Hwf)) as Hidx'.
    rewrite run_childrenArray, Hch in Hidx'. lia.
Qed.

Lemma filteredTasks_all k (m : gmap string Task) :
  (forall tid task, m !! tid = Some task -> Task.index task <= k) ->
  filteredTasks k m = m.
Proof.
  intros Hall. rewrite filteredTasks_filter. apply map_filter_id.
  intros tid task Hl. simpl. by apply (Hall tid).
Qed.

Lemma list_filter_all {A} (P : A -> Prop) `{!forall x, Decision (P x)}
    (l : list A) :
  (forall x, x ∈ l -> P x) -> filter P l = l.
Proof.
  induction l as [|x l IH]; intros Hall; [done|].
  rewrite filter_cons_True by (apply Hall; left).
  f_equal. apply IH. intros y Hy. apply Hall. by right.
Qed.

(** X11. In a mounted provider the status test of the completion predicate
    adds nothing: a task with status [completed] always has its id in
    [completedTaskIds], so a step is complete exactly when it has a task
    and the ids of all its tasks are in [completedTaskIds]. *)
Theorem completion_is_membership
    (children : list ReactElement) (evs : list Event) (i : Z) :
  let p := run (mount children) evs in
  (forall tid task,
      tasks (state p) !! tid = Some task -> Task.status task = completed ->
      tid ∈ completedTaskIds (state p))
  /\ (isComplete (state p) i = true
      <-> (exists tid task,
             tasks (state p) !! tid = Some task /\ Task.index task = i)
          /\ (forall tid task,
                tasks (state p) !! tid = Some task -> Task.index task = i ->
                tid ∈ completedTaskIds (state p))).
Proof.
  intros p.
  assert (Hwf : wellFormed p) by apply wellFormed_run, wellFormed_mount.
  split; [apply (wf_completed p Hwf)|].
  rewrite isComplete_true. split; intros [Hex Hall]; (split; [done|]).
  - intros tid task Hl Hi.
    destruct (wf_tasks p Hwf tid task Hl) as [Hkey _].
    destruct (Hall tid task Hl Hi) as [Hin|Hst];
      [by rewrite Hkey in Hin|by apply (wf_completed p Hwf tid task)].
  - intros tid task Hl Hi. left.
    destruct (wf_tasks p Hwf tid task Hl) as [Hkey _].
    rewrite Hkey. by apply (Hall tid task).
Qed.

(** ** The handle and the sequencer together *)

Lemma newTaskId_truthy currentIndex random :
  truthy (Some (newTaskId currentIndex random)) = true.
Proof.
  unfold truthy, newTaskId. apply negb_true_iff, String.eqb_neq.
  by destruct (pretty currentIndex).
Qed.

Lemma settle_completed now st id task :
  tasks st !! id = Some task ->
  settle now st [Dispatched (START_TASK id); Awaited;
                 Dispatched (COMPLETE_TASK id)]
  = {| tasks := <[id := Task.finished now (Task.started now task)]>
                  (<[id := Task.started now task]> (tasks st));
       rootTaskIds := rootTaskIds st;
       completedTaskIds := completedTaskIds st ++ [id] |}.
Proof. intros Hl. simpl. rewrite Hl. simpl. by rewrite lookup_insert_eq. Qed.

Lemma settle_failed now st id err task :
  tasks st !! id = Some task ->
  settle now st [Dispatched (START_TASK id); Awaited;
                 Dispatched (FAIL_TASK id err)]
  = {| tasks := <[id := Task.broken now err (Task.started now task)]>
                  (<[id := Task.started now task]> (tasks st));
       rootTaskIds := rootTaskIds st;
       completedTaskIds := completedTaskIds st |}.
Proof. intros Hl. simpl. rewrite Hl. simpl. by rewrite lookup_insert_eq. Qed.

(** X14. One task, one step. On a freshly mounted provider with at least
    two steps, a handle that registers, runs [execute] and sees its body
    resolve leaves its task [completed], and the next run of the progression
    effect opens step 1. If the body throws instead, the task is [failed]
    with the normalized error and the progression effect leaves
    [currentIndex] at 0. *)
Theorem one_task_step
    (children : list ReactElement) (random name : string)
    (parentId : option TaskId) (now : Z) (value thrown : JsValue)
    (Hsteps : (2 <= length children)%nat) :
  let id := newTaskId 0 random in
  let mounted := useTaskEffect random name parentId None (mount children) in
  let ok := execute mounted.1 (Some (Fulfilled value)) mounted.1 in
  let ko := execute mounted.1 (Some (Rejected thrown)) mounted.1 in
  (useTaskView mounted.1 (state (flush now mounted.2 ok.1))
   = (id, Some completed, None)
   /\ currentIndex (progressionEffect (flush now mounted.2 ok.1)) = 1)
  /\ (useTaskView mounted.1 (state (flush now mounted.2 ko.1))
      = (id, Some failed, Some (normalizeError thrown))
      /\ currentIndex (progressionEffect (flush now mounted.2 ko.1)) = 0).
Proof.
  intros id mounted ok ko.
  pose proof (newTaskId_truthy 0 random) as Htruthy. fold id in Htruthy.
  set (task := newTask 0 random name parentId).
  assert (Hm : mounted = (Some id, dispatch 0 (REGISTER_TASK task)
                                            (mount children))) by done.
  assert (Hok : ok.1 = [Dispatched (START_TASK id); Awaited;
                        Dispatched (COMPLETE_TASK id)]).
  { subst ok. rewrite Hm. cbn [fst snd]. unfold execute.
    by rewrite Htruthy. }
  assert (Hko : ko.1 = [Dispatched (START_TASK id); Awaited;
                        Dispatched (FAIL_TASK id (normalizeError thrown))]).
  { subst ko. rewrite Hm. cbn [fst snd]. unfold execute.
    by rewrite Htruthy. }
  assert (Hst : tasks (state mounted.2) = <[id := task]> ∅) by (by rewrite Hm).
  assert (Hl : tasks (state mounted.2) !! id = Some task)
    by (rewrite Hst; apply lookup_insert_eq).
  assert (Hdone : completedTaskIds (state mounted.2) = []) by (by rewrite Hm).
  assert (Hidx : currentIndex mounted.2 = 0) by (by rewrite Hm).
  assert (Hch : childrenArray mounted.2 = children) by (by rewrite Hm).
  assert (Hm1 : mounted.1 = Some id) by (by rewrite Hm).
  split.
  - (* the body resolves *)
    assert (Hfin : tasks (state (flush now mounted.2 ok.1))
                   = <[id := Task.finished now (Task.started now task)]>
                       (<[id := Task.started now task]>
                          (tasks (state mounted.2)))).
    { rewrite Hok. unfold flush. cbn [state].
      by rewrite (settle_completed now _ id task Hl). }
    assert (Hlist : completedTaskIds (state (flush now mounted.2 ok.1))
                    = [id]).
    { rewrite Hok. unfold flush. cbn [state].
      rewrite (settle_completed now _ id task Hl). cbn [completedTaskIds].
      by rewrite Hdone. }
    split.
    + unfold useTaskView, getTask. rewrite Hm1, Htruthy.
      cbv [refId default from_option Datatypes.id].
      rewrite Hfin. by rewrite lookup_insert_eq.
    + rewrite progressionEffect_currentIndex
        by (change (currentIndex (flush now mounted.2 ok.1))
              with (currentIndex mounted.2); lia).
      change (currentIndex (flush now mounted.2 ok.1))
        with (currentIndex mounted.2).
      change (childrenArray (flush now mounted.2 ok.1))
        with (childrenArray mounted.2).
      rewrite Hidx, Hch.
      rewrite (bool_decide_eq_true_2 (0 < _)) by lia.
      assert (Hc : isComplete (state (flush now mounted.2 ok.1)) 0 = true);
        [|by rewrite Hc].
      apply isComplete_true. split.
      * exists id, (Task.finished now (Task.started now task)).
        rewrite Hfin. by rewrite lookup_insert_eq.
      * intros tid t Ht _. left. rewrite Hlist, Hfin in *.
        apply lookup_insert_Some in Ht as [[<- <-]|[Hne Ht]];
          [apply list_elem_of_singleton; done|].
        apply lookup_insert_Some in Ht as [[? _]|[_ Ht]]; [done|].
        rewrite Hst in Ht.
        apply lookup_insert_Some in Ht as [[? _]|[_ Ht]]; [done|].
        by apply lookup_empty_Some in Ht.
  - (* the body throws *)
    assert (Hfin : tasks (state (flush now mounted.2 ko.1))
                   = <[id := Task.broken now (normalizeError thrown)
                                         (Task.started now task)]>
                       (<[id := Task.started now task]>
                          (tasks (state mounted.2)))).
    { rewrite Hko. unfold flush. cbn [state].
      by rewrite (settle_failed now _ id _ task Hl). }
    assert (Hlist : completedTaskIds (state (flush now mounted.2 ko.1)) = []).
    { rewrite Hko. unfold flush. cbn [state].
      by rewrite (settle_failed now _ id _ task Hl). }
    split.
    + unfold useTaskView, getTask. rewrite Hm1, Htruthy.
      cbv [refId default from_option Datatypes.id].
      rewrite Hfin. by rewrite lookup_insert_eq.
    + rewrite progressionEffect_currentIndex
        by (change (currentIndex (flush now mounted.2 ko.1))
              with (currentIndex mounted.2); lia).
      change (currentIndex (flush now mounted.2 ko.1))
        with (currentIndex mounted.2).
      rewrite Hidx.
      assert (Hc : isComplete (state (flush now mounted.2 ko.1)) 0 = false);
        [|by rewrite Hc].
      apply not_true_is_false. rewrite isComplete_true. intros [_ Hall].
      destruct (Hall id (Task.broken now (normalizeError thrown)
                                     (Task.started now task))) as [Hin|Hs].
      * rewrite Hfin. by rewrite lookup_insert_eq.
      * done.
      * rewrite Hlist in Hin. by apply elem_of_nil in Hin.
      * done.
Qed.

Lemma one_task_step_witness :
  let mounted :=
    useTaskEffect "k3j9x2a" "Shell: ls" None None
                  (mount [Step "A"; Step "B"; Step "C"]) in
  let ok := execute mounted.1 (Some (Fulfilled (JsString "out"))) mounted.1 in
  currentIndex (progressionEffect (flush 7 mounted.2 ok.1)) = 1.
Proof.
  destruct (one_task_step [Step "A"; Step "B"; Step "C"]
              "k3j9x2a" "Shell: ls" None 7 (JsString "out") (JsString "err"))
    as [[_ H] _].
  - simpl. lia.
  - exact H.
Defined.

(** ** [FileReader]: what becomes of the task *)

(** Unfolds the combinators of an asynchronous body. *)
Ltac run_async :=
  cbv [tryCatch mbind Async_bind mret Async_ret setState await awaitOptional
       throw stateOf promiseOf];
  cbn beta iota.

Section FileReaderFacts.

Context {Buffer Parsed : Type}.
Variable toUtf8 : Buffer -> string.
Variable toBase64 : Buffer -> string.
Variable JSON_parse : string -> Error + Parsed.
Variable truthyParsed : Parsed -> bool.

Let readFileContent :=
  FileReader.readFileContent toUtf8 toBase64 JSON_parse.
Let FileState := @FileReader.FileState Buffer Parsed.

(** X15. A failed read completes the task. When [readFile] throws, the
    component's state gets the normalized error and stops loading, and the
    body resolves all the same (provided [onError], if given, returns): so
    [execute] dispatches [start] and [complete], never [fail], and of the
    three helper components only [FileError] renders. *)
Theorem failed_read_completes_the_task
    (format : FileReader.FileFormat) (thrown : JsValue)
    (onSuccess : option (FileReader.FileContent -> Outcome unit))
    (onError : option (Error -> Outcome unit))
    (st : FileState) (id : TaskId) (later : option TaskId)
    (Hid : truthy (Some id) = true)
    (HonError :
       forall callback, onError = Some callback ->
                        callback (normalizeError thrown) = Returned tt) :
  let r := readFileContent format (Threw thrown) onSuccess onError st in
  stateOf r
  = FileReader.patch st (FileReader.content st)
                     (Some (normalizeError thrown)) false
  /\ promiseOf r = Some (Fulfilled JsUndefined)
  /\ (execute (Some id) (promiseOf r) later).1
     = [Dispatched (START_TASK id); Awaited;
        Dispatched (COMPLETE_TASK (refId later))]
  /\ FileReader.FileError (stateOf r) = true
  /\ FileReader.FileSuccess truthyParsed (stateOf r) = false
  /\ FileReader.FileReading (stateOf r) = false.
Proof.
  intros r.
  assert (Hr : r = Done (FileReader.patch st (FileReader.content st)
                           (Some (normalizeError thrown)) false)
                        JsUndefined).
  { subst r readFileContent. unfold FileReader.readFileContent. run_async.
    destruct onError as [callback|]; [|done].
    by rewrite (HonError callback eq_refl). }
  rewrite Hr. cbn [stateOf promiseOf]. unfold execute. rewrite Hid.
  by split_and!.
Qed.

(** X16. The body of [FileReader] never rejects by itself. Whatever the
    read, the decoding and [onSuccess] do, the promise of the body resolves
    with [undefined]; it is rejected only with a value that [onError]
    itself has thrown, so only then is the task failed. *)
Theorem readFileContent_rejects_only_through_onError
    (format : FileReader.FileFormat) (readFile : Outcome Buffer)
    (onSuccess : option (FileReader.FileContent -> Outcome unit))
    (onError : option (Error -> Outcome unit))
    (st : FileState) (settled : Settled)
    (Hsettled :
       promiseOf (readFileContent format readFile onSuccess onError st)
       = Some settled) :
  settled = Fulfilled JsUndefined
  \/ exists callback finalError v,
       onError = Some callback
       /\ callback finalError = Threw v
       /\ settled = Rejected v.
Proof.
  subst readFileContent. unfold FileReader.readFileContent in Hsettled.
  assert (Hhandler : forall thrown (s : FileState),
     promiseOf
       ((fun thrown =>
           let finalError := normalizeError thrown in
           setState (fun prev : FileState =>
             FileReader.patch prev (FileReader.content prev)
                              (Some finalError) false);;
           awaitOptional onError finalError;;
           mret JsUndefined) thrown s) = Some settled ->
     settled = Fulfilled JsUndefined
     \/ exists callback finalError v,
          onError = Some callback
          /\ callback finalError = Threw v
          /\ settled = Rejected v).
  { intros thrown s. run_async.
    destruct onError as [callback|]; [|intros [= <-]; by left].
    destruct (callback (normalizeError thrown)) as [[]|v|] eqn:E;
      cbn; intros [= <-]; [by left|].
    right. by exists callback, (normalizeError thrown), v. }
  revert Hsettled. run_async.
  destruct readFile as [buffer|thrown|]; [|apply Hhandler|done].
  destruct (FileReader.processContent toUtf8 toBase64 JSON_parse format buffer)
    as [content|thrown|]; [|apply Hhandler|done].
  destruct onSuccess as [callback|]; [|intros [= <-]; by left].
  destruct (callback content) as [[]|thrown|];
    [intros [= <-]; by left|apply Hhandler|done].
Qed.

(** X17. After a read that succeeds (with [onSuccess], if given, returning)
    the state holds the decoded content, no error, and is no longer
    loading. Of the helper components neither [FileReading] nor [FileError]
    renders, and [FileSuccess] renders a text file only if its text is not
    empty, whereas it always renders a file read as binary. *)
Theorem views_after_a_read
    (buffer : Buffer)
    (onSuccess : option (FileReader.FileContent -> Outcome unit))
    (onError : option (Error -> Outcome unit))
    (st : FileState)
    (HonSuccess :
       forall callback content, onSuccess = Some callback ->
                                callback content = Returned tt) :
  let asText :=
    readFileContent FileReader.text (Returned buffer) onSuccess onError st in
  let asBinary :=
    readFileContent FileReader.binary (Returned buffer) onSuccess onError st in
  (stateOf asText
   = FileReader.patch st (FileReader.ContentString (toUtf8 buffer)) None false
   /\ promiseOf asText = Some (Fulfilled JsUndefined)
   /\ FileReader.FileReading (stateOf asText) = false
   /\ FileReader.FileError (stateOf asText) = false
   /\ FileReader.FileSuccess truthyParsed (stateOf asText)
      = negb (String.eqb (toUtf8 buffer) ""))
  /\ (stateOf asBinary
      = FileReader.patch st (FileReader.ContentBuffer buffer) None false
      /\ FileReader.FileSuccess truthyParsed (stateOf asBinary) = true).
Proof.
  intros asText asBinary.
  assert (Ht : asText
               = Done (FileReader.patch st
                         (FileReader.ContentString (toUtf8 buffer)) None false)
                      JsUndefined).
  { subst asText readFileContent.
    unfold FileReader.readFileContent, FileReader.processContent.
    run_async. destruct onSuccess as [callback|]; [|done].
    by rewrite (HonSuccess callback _ eq_refl). }
  assert (Hb : asBinary
               = Done (FileReader.patch st (FileReader.ContentBuffer buffer)
                                        None false)
                      JsUndefined).
  { subst asBinary readFileContent.
    unfold FileReader.readFileContent, FileReader.processContent.
    run_async. destruct onSuccess as [callback|]; [|done].
    by rewrite (HonSuccess callback _ eq_refl). }
  rewrite Ht, Hb. cbn [stateOf promiseOf]. split_and!; try done.
  unfold FileReader.FileSuccess. cbn. by rewrite negb_involutive.
Qed.

End FileReaderFacts.

Lemma failed_read_completes_the_task_witness :
  let r :=
    FileReader.readFileContent (Buffer:=string) (Parsed:=string)
      (fun b => b) (fun b => b) inr FileReader.json
      (Threw (JsString "ENOENT")) None None
      (FileReader.initial "./config.txt" FileReader.json) in
  FileReader.error (stateOf r) = Some (mkError "ENOENT")
  /\ (execute (Some "0-k3j9x2a") (promiseOf r) (Some "0-k3j9x2a")).1
     = [Dispatched (START_TASK "0-k3j9x2a"); Awaited;
        Dispatched (COMPLETE_TASK "0-k3j9x2a")].
Proof.
  destruct (failed_read_completes_the_task (Buffer:=string) (Parsed:=string)
              (fun b => b) (fun b => b) inr (fun _ => true)
              FileReader.json (JsString "ENOENT") None None
              (FileReader.initial "./config.txt" FileReader.json)
              "0-k3j9x2a" (Some "0-k3j9x2a"))
    as (Hst & _ & Hexec & _).
  - reflexivity.
  - intros callback H. discriminate.
  - split; [by rewrite Hst|exact Hexec].
Defined.

Lemma readFileContent_rejects_only_through_onError_witness :
  Rejected (JsString "handler broke") = Fulfilled JsUndefined
  \/ exists callback finalError v,
       Some (fun _ : Error => Threw (A:=unit) (JsString "handler broke"))
       = Some callback
       /\ callback finalError = Threw v
       /\ Rejected (JsString "handler broke") = Rejected v.
Proof.
  apply (readFileContent_rejects_only_through_onError
           (Buffer:=string) (Parsed:=string)
           (fun b => b) (fun b => b) inr
           FileReader.text (Threw (JsString "ENOENT")) None
           (Some (fun _ => Threw (JsString "handler broke")))
           (FileReader.initial "./config.txt" FileReader.text)).
  reflexivity.
Defined.

Lemma views_after_a_read_witness :
  FileReader.FileSuccess (Buffer:=string) (Parsed:=string) (fun _ => true)
    (stateOf
       (FileReader.readFileContent (fun b => b) (fun b => b) inr
          FileReader.text (Returned "") None None
          (FileReader.initial "./empty.txt" FileReader.text)))
  = false.
Proof.
  destruct (views_after_a_read (Buffer:=string) (Parsed:=string)
              (fun b => b) (fun b => b) inr (fun _ => true)
              "" None None
              (FileReader.initial "./empty.txt" FileReader.text))
    as [(_ & _ & _ & _ & H) _].
  - intros callback content H. discriminate.
  - exact H.
Defined.

(** ** [Fetch], [Shell], [Prompt]: what becomes of the task *)

Section FetchFacts.

Context {Data : Type}.
Variable truthyData : Data -> bool.

(** X19. A failed request completes the task. When [fetch] or
    [response.json()] throws, the state gets the normalized error and no
    data, and the body still resolves (provided [onError], if given,
    returns): [execute] dispatches [complete], not [fail]. *)
Theorem failed_fetch_completes_the_task
    (fetch : Outcome Fetch.Response) (thrown : JsValue)
    (onSuccess : option (Data -> Outcome unit))
    (onError : option (Error -> Outcome unit))
    (st : Fetch.FetchState) (id : TaskId) (later : option TaskId)
    (Hid : truthy (Some id) = true)
    (Hfails :
       fetch = Threw thrown
       \/ exists response,
            fetch = Returned response /\ Fetch.json response = Threw thrown)
    (HonError :
       forall callback, onError = Some callback ->
                        callback (normalizeError thrown) = Returned tt) :
  let r := Fetch.body fetch onSuccess onError st in
  stateOf r
  = {| Fetch.data := None; Fetch.error := Some (normalizeError thrown);
       Fetch.loading := false |}
  /\ (execute (Some id) (promiseOf r) later).1
     = [Dispatched (START_TASK id); Awaited;
        Dispatched (COMPLETE_TASK (refId later))]
  /\ Fetch.FetchError (stateOf r) = true
  /\ Fetch.FetchSuccess truthyData (stateOf r) = false.
Proof.
  intros r.
  assert (Hr : r = Done {| Fetch.data := None;
                           Fetch.error := Some (normalizeError thrown);
                           Fetch.loading := false |} JsUndefined).
  { subst r. unfold Fetch.body.
    destruct Hfails as [->|(response & -> & Hjson)]; run_async;
      rewrite ?Hjson;
      (destruct onError as [callback|]; [|done]);
      by rewrite (HonError callback eq_refl). }
  rewrite Hr. cbn [stateOf promiseOf]. unfold execute. rewrite Hid.
  by split_and!.
Qed.

End FetchFacts.

Lemma failed_fetch_completes_the_task_witness :
  let r := Fetch.body (Data:=string) (Threw (JsString "ECONNREFUSED"))
                      None None Fetch.initial in
  Fetch.error (stateOf r) = Some (mkError "ECONNREFUSED")
  /\ (execute (Some "0-k3j9x2a") (promiseOf r) (Some "0-k3j9x2a")).1
     = [Dispatched (START_TASK "0-k3j9x2a"); Awaited;
        Dispatched (COMPLETE_TASK "0-k3j9x2a")].
Proof.
  destruct (failed_fetch_completes_the_task (fun _ : string => true)
              (Threw (JsString "ECONNREFUSED")) (JsString "ECONNREFUSED")
              None None Fetch.initial "0-k3j9x2a" (Some "0-k3j9x2a"))
    as (Hst & Hexec & _).
  - reflexivity.
  - by left.
  - intros callback H. discriminate.
  - split; [by rewrite Hst|exact Hexec].
Defined.

(** X20. A failed command fails the task. In [exec] mode, when the command
    throws, or when it succeeds and [onSuccess] throws, the state loses its
    output, gets the normalized error and the exit code 1,
    and the body is rejected with that error (provided [onError], if given,
    returns): [execute] dispatches [fail] with the same error and
    re-raises it. *)
Theorem failed_command_fails_the_task
    (execAsync : Outcome (string * string)) (thrown : JsValue)
    (onSuccess : option (string * Z -> Outcome unit))
    (onError : option (Error -> Outcome unit))
    (onStderr : option (string -> Outcome unit))
    (st : Shell.ShellState) (id : TaskId) (later : option TaskId)
    (Hid : truthy (Some id) = true)
    (Hfails :
       execAsync = Threw thrown
       \/ exists out err callback,
            execAsync = Returned (out, err)
            /\ onSuccess = Some callback
            /\ callback (out, 0) = Threw thrown)
    (HonError :
       forall callback, onError = Some callback ->
                        callback (normalizeError thrown) = Returned tt) :
  let r := Shell.execBody execAsync onSuccess onError onStderr st in
  let finalError := normalizeError thrown in
  stateOf r
  = {| Shell.output := None; Shell.error := Some finalError;
       Shell.exitCode := Some 1; Shell.loading := false;
       Shell.stderr := None |}
  /\ execute (Some id) (promiseOf r) later
     = ([Dispatched (START_TASK id); Awaited;
         Dispatched (FAIL_TASK (refId later) finalError)],
        Some (Rejected (JsError finalError)))
  /\ Shell.ShellError (stateOf r) = true
  /\ Shell.ShellSuccess (stateOf r) = false.
Proof.
  intros r finalError.
  assert (Hr : r = Raised {| Shell.output := None;
                             Shell.error := Some finalError;
                             Shell.exitCode := Some 1;
                             Shell.loading := false;
                             Shell.stderr := None |} (JsError finalError)).
  { subst r. unfold Shell.execBody.
    destruct Hfails as [->|(out & err & cb & -> & -> & Hcb)]; run_async;
      rewrite ?Hcb; cbn beta iota;
      (destruct onError as [callback|]; [|done]);
      by rewrite (HonError callback eq_refl). }
  rewrite Hr. cbn [stateOf promiseOf]. unfold execute. rewrite Hid.
  by split_and!.
Qed.

Lemma failed_command_fails_the_task_witness :
  let r := Shell.execBody (Returned ("done", "")) 
             (Some (fun _ => Threw (JsString "callback broke")))
             None None Shell.initial in
  Shell.exitCode (stateOf r) = Some 1
  /\ Shell.output (stateOf r) = None
  /\ execute (Some "0-k3j9x2a") (promiseOf r) (Some "0-k3j9x2a")
     = ([Dispatched (START_TASK "0-k3j9x2a"); Awaited;
         Dispatched (FAIL_TASK "0-k3j9x2a" (mkError "callback broke"))],
        Some (Rejected (JsError (mkError "callback broke")))).
Proof.
  destruct (failed_command_fails_the_task (Returned ("done", ""))
              (JsString "callback broke")
              (Some (fun _ => Threw (JsString "callback broke")))
              None None Shell.initial "0-k3j9x2a" (Some "0-k3j9x2a"))
    as (Hst & Hexec & _).
  - reflexivity.
  - right. by eexists _, _, _.
  - intros callback H. discriminate.
  - split; [by rewrite Hst|]. split; [by rewrite Hst|exact Hexec].
Defined.

(** X21. A command that succeeds (with the callbacks that are given
    returning) leaves its output, its standard error and the exit code 0 in
    the state and completes the task; but [ShellSuccess] renders only if
    the output is not empty: after a successful command that prints
    nothing, none of the three helper components renders. *)
Theorem views_after_a_command
    (out err : string)
    (onSuccess : option (string * Z -> Outcome unit))
    (onError : option (Error -> Outcome unit))
    (onStderr : option (string -> Outcome unit))
    (st : Shell.ShellState) (id : TaskId) (later : option TaskId)
    (Hid : truthy (Some id) = true)
    (HonSuccess :
       forall callback, onSuccess = Some callback ->
                        callback (out, 0) = Returned tt)
    (HonStderr :
       forall callback, onStderr = Some callback ->
                        callback err = Returned tt) :
  let r := Shell.execBody (Returned (out, err)) onSuccess onError onStderr st in
  stateOf r
  = {| Shell.output := Some out; Shell.error := None;
       Shell.exitCode := Some 0; Shell.loading := false;
       Shell.stderr := Some err |}
  /\ (execute (Some id) (promiseOf r) later).1
     = [Dispatched (START_TASK id); Awaited;
        Dispatched (COMPLETE_TASK (refId later))]
  /\ Shell.ShellLoading (stateOf r) = false
  /\ Shell.ShellError (stateOf r) = false
  /\ Shell.ShellSuccess (stateOf r) = negb (String.eqb out "").
Proof.
  intros r.
  assert (Hr : r = Done {| Shell.output := Some out; Shell.error := None;
                           Shell.exitCode := Some 0; Shell.loading := false;
                           Shell.stderr := Some err |} JsUndefined).
  { subst r. unfold Shell.execBody. run_async.
    destruct onSuccess as [callback|];
      [rewrite (HonSuccess callback eq_refl)|]; cbn beta iota;
      (destruct (truthy (Some err)); [|done]);
      (destruct onStderr as [callback'|]; [|done]);
      by rewrite (HonStderr callback' eq_refl). }
  rewrite Hr. cbn [stateOf promiseOf]. unfold execute. rewrite Hid.
  split_and!; try done.
  unfold Shell.ShellSuccess, truthy.
  cbn [Shell.output Shell.loading Shell.error Shell.exitCode].
  rewrite (bool_decide_eq_false_2 (is_Some None)) by (by intros [? ?]).
  rewrite (bool_decide_eq_true_2 (Some 0 = Some 0)) by done.
  by destruct (String.eqb out "").
Qed.

Lemma views_after_a_command_witness :
  let r := Shell.execBody (Returned ("", "")) None None None Shell.initial in
  Shell.exitCode (stateOf r) = Some 0
  /\ Shell.ShellSuccess (stateOf r) = false
  /\ Shell.ShellError (stateOf r) = false
  /\ Shell.ShellLoading (stateOf r) = false.
Proof.
  destruct (views_after_a_command "" "" None None None Shell.initial
              "0-k3j9x2a" (Some "0-k3j9x2a"))
    as (Hst & _ & Hl & He & Hs).
  - reflexivity.
  - intros callback H. discriminate.
  - intros callback H. discriminate.
  - split; [by rewrite Hst|]. split; [exact Hs|]. split; [exact He|exact Hl].
Defined.

Section PromptFacts.

Variable trim : string -> string.

(** X22. The verdict of [validate] is overwritten. For an answer that is
    not empty, whatever [validate] resolves with, [true], [false] or a
    message, the body goes on exactly as if no [validate] had been given;
    with [onSubmit] absent or returning, the state ends with the answer as
    its value and no error, [PromptSuccess] renders and the body
    resolves. *)
Theorem validation_is_overwritten
    (defaultValue : string) (answer : string) (verdict : Prompt.Verdict)
    (check : string -> Outcome Prompt.Verdict)
    (onSubmit : option (string -> Outcome unit))
    (onCancel : option (unit -> Outcome unit))
    (st : Prompt.PromptState)
    (Hanswer : truthy (Some (trim answer)) = true)
    (Hcheck : check (trim answer) = Returned verdict) :
  let validated :=
    Prompt.body trim defaultValue (Prompt.Answered answer)
                onSubmit onCancel (Some check) st in
  validated
  = Prompt.body trim defaultValue (Prompt.Answered answer)
                onSubmit onCancel None st
  /\ ((forall callback, onSubmit = Some callback ->
                        callback (trim answer) = Returned tt) ->
      stateOf validated
      = {| Prompt.value := Some (trim answer); Prompt.error := None;
           Prompt.loading := false |}
      /\ promiseOf validated = Some (Fulfilled JsUndefined)
      /\ Prompt.PromptSuccess (stateOf validated) = true).
Proof.
  intros validated.
  assert (Hsame : validated
                  = Prompt.body trim defaultValue (Prompt.Answered answer)
                                onSubmit onCancel None st).
  { subst validated. unfold Prompt.body, Prompt.question.
    rewrite Hanswer. run_async. rewrite Hanswer. cbn [negb].
    rewrite Hcheck. by destruct verdict as [s|[|]]. }
  split; [exact Hsame|].
  intros HonSubmit.
  assert (Hrun : validated
                 = Done {| Prompt.value := Some (trim answer);
                           Prompt.error := None;
                           Prompt.loading := false |} JsUndefined).
  { rewrite Hsame. unfold Prompt.body, Prompt.question.
    rewrite Hanswer. run_async. rewrite Hanswer. cbn [negb].
    destruct onSubmit as [callback|]; [|done].
    by rewrite (HonSubmit callback eq_refl). }
  rewrite Hrun. cbn [stateOf promiseOf]. split_and!; try done.
  unfold Prompt.PromptSuccess.
  cbn [Prompt.value Prompt.loading Prompt.error]. rewrite Hanswer.
  by rewrite bool_decide_eq_false_2 by (by intros [? ?]).
Qed.

(** X23. No answer cancels, and cancelling completes the task. When the
    trimmed answer and the default value are both empty, [onCancel] is
    awaited, the state is reset to no value and no error, and the body
    resolves (provided [onCancel], if given, returns) without [validate] or
    [onSubmit] having any part in it: [execute] dispatches [complete]. *)
Theorem empty_answer_cancels
    (answer : string)
    (onSubmit onSubmit' : option (string -> Outcome unit))
    (onCancel : option (unit -> Outcome unit))
    (validate validate' : option (string -> Outcome Prompt.Verdict))
    (st : Prompt.PromptState) (id : TaskId) (later : option TaskId)
    (Hid : truthy (Some id) = true)
    (Hanswer : truthy (Some (trim answer)) = false)
    (HonCancel :
       forall callback, onCancel = Some callback ->
                        callback tt = Returned tt) :
  let r := Prompt.body trim "" (Prompt.Answered answer)
                       onSubmit onCancel validate st in
  r = Prompt.body trim "" (Prompt.Answered answer)
                  onSubmit' onCancel validate' st
  /\ stateOf r = Prompt.initial
  /\ (execute (Some id) (promiseOf r) later).1
     = [Dispatched (START_TASK id); Awaited;
        Dispatched (COMPLETE_TASK (refId later))]
  /\ Prompt.PromptSuccess (stateOf r) = false
  /\ Prompt.PromptError (stateOf r) = false.
Proof.
  intros r.
  assert (Hr : forall submit check,
             Prompt.body trim "" (Prompt.Answered answer)
                         submit onCancel check st
             = Done Prompt.initial JsUndefined).
  { intros submit check. unfold Prompt.body, Prompt.question.
    rewrite Hanswer. run_async. cbn.
    destruct onCancel as [callback|]; [|done].
    by rewrite (HonCancel callback eq_refl). }
  subst r. rewrite !Hr. cbn [stateOf promiseOf]. unfold execute. rewrite Hid.
  by split_and!.
Qed.

(** X24. Ctrl+C fails the task. When the question is interrupted, the
    state gets the error "User cancelled" and the body is rejected with
    it: [execute] dispatches [fail] with that error and re-raises it;
    [onCancel] is not part of this path. *)
Theorem interrupt_fails_the_task
    (defaultValue : string)
    (onSubmit : option (string -> Outcome unit))
    (onCancel : option (unit -> Outcome unit))
    (validate : option (string -> Outcome Prompt.Verdict))
    (st : Prompt.PromptState) (id : TaskId) (later : option TaskId)
    (Hid : truthy (Some id) = true) :
  let r := Prompt.body trim defaultValue Prompt.Interrupted
                       onSubmit onCancel validate st in
  stateOf r
  = {| Prompt.value := None; Prompt.error := Some (mkError "User cancelled");
       Prompt.loading := false |}
  /\ execute (Some id) (promiseOf r) later
     = ([Dispatched (START_TASK id); Awaited;
         Dispatched (FAIL_TASK (refId later) (mkError "User cancelled"))],
        Some (Rejected (JsError (mkError "User cancelled"))))
  /\ Prompt.PromptError (stateOf r) = true.
Proof.
  intros r. subst r. unfold Prompt.body, Prompt.question. run_async.
  cbn [normalizeError]. unfold execute. rewrite Hid. by split_and!.
Qed.

End PromptFacts.

Lemma validation_is_overwritten_witness :
  stateOf
    (Prompt.body (fun s => s) "" (Prompt.Answered "no")
       None None (Some (fun _ => Returned (Prompt.Message "say yes")))
       Prompt.initial)
  = {| Prompt.value := Some "no"; Prompt.error := None;
       Prompt.loading := false |}.
Proof.
  destruct (validation_is_overwritten (fun s => s) "" "no"
              (Prompt.Message "say yes")
              (fun _ => Returned (Prompt.Message "say yes"))
              None None Prompt.initial)
    as (_ & H).
  - reflexivity.
  - reflexivity.
  - destruct H as (H & _); [intros callback E; discriminate|exact H].
Defined.

Lemma empty_answer_cancels_witness :
  let r := Prompt.body (fun s => s) "" (Prompt.Answered "")
             None None None (Prompt.handlePrompt Prompt.initial) in
  stateOf r = Prompt.initial
  /\ (execute (Some "0-k3j9x2a") (promiseOf r) (Some "0-k3j9x2a")).1
     = [Dispatched (START_TASK "0-k3j9x2a"); Awaited;
        Dispatched (COMPLETE_TASK "0-k3j9x2a")].
Proof.
  destruct (empty_answer_cancels (fun s => s) "" None None None None None
              (Prompt.handlePrompt Prompt.initial)
              "0-k3j9x2a" (Some "0-k3j9x2a"))
    as (_ & Hst & Hexec & _).
  - reflexivity.
  - reflexivity.
  - intros callback H. discriminate.
  - split; [exact Hst|exact Hexec].
Defined.

Lemma interrupt_fails_the_task_witness :
  let r := Prompt.body (fun s => s) "yes" Prompt.Interrupted
             None None None (Prompt.handlePrompt Prompt.initial) in
  Prompt.error (stateOf r) = Some (mkError "User cancelled")
  /\ (execute (Some "0-k3j9x2a") (promiseOf r) (Some "0-k3j9x2a")).2
     = Some (Rejected (JsError (mkError "User cancelled"))).
Proof.
  destruct (interrupt_fails_the_task (fun s => s) "yes" None None None
              (Prompt.handlePrompt Prompt.initial)
              "0-k3j9x2a" (Some "0-k3j9x2a"))
    as (Hst & Hexec & _).
  - reflexivity.
  - split; [by rewrite Hst|by rewrite Hexec].
Defined.

(** ** A whole script *)

Lemma one_step_forward p random name :
  wellFormed p ->
  (forall tid task, tasks (state p) !! tid = Some task ->
                    Task.index task < currentIndex p) ->
  currentIndex p < Z.of_nat (length (childrenArray p)) - 1 ->
  let p' := run p [RegisterTask random name None;
                   StartTask 0 (newTaskId (currentIndex p) random);
                   CompleteTask 0 (newTaskId (currentIndex p) random);
                   RunProgression] in
  wellFormed p'
  /\ currentIndex p' = currentIndex p + 1
  /\ childrenArray p' = childrenArray p
  /\ (forall tid task, tasks (state p') !! tid = Some task ->
                       Task.index task < currentIndex p').
Proof.
  intros Hwf Hfresh Hlast p'.
  set (nid := newTaskId (currentIndex p) random).
  set (evs := [RegisterTask random name None; StartTask 0 nid;
               CompleteTask 0 nid]).
  set (q := run p evs).
  assert (Hp' : p' = progressionEffect q) by done.
  assert (Hq : wellFormed q) by by apply wellFormed_run.
  assert (Hqi : currentIndex q = currentIndex p) by done.
  assert (Hqc : childrenArray q = childrenArray p) by done.
  set (task0 := newTask (currentIndex p) random name None).
  assert (Hqt : tasks (state q)
                = <[nid := Task.finished 0 (Task.started 0 task0)]>
                    (<[nid := Task.started 0 task0]>
                       (<[nid := task0]> (tasks (state p))))).
  { subst q evs. simpl. fold nid. rewrite lookup_insert_eq. simpl.
    by rewrite lookup_insert_eq. }
  assert (Hqd : nid ∈ completedTaskIds (state q)).
  { subst q evs. simpl. fold nid. rewrite lookup_insert_eq. simpl.
    rewrite lookup_insert_eq. simpl.
    apply elem_of_app. right. by apply list_elem_of_singleton. }
  assert (Hcomplete : isComplete (state q) (currentIndex q) = true).
  { apply isComplete_true. split.
    - exists nid, (Task.finished 0 (Task.started 0 task0)).
      rewrite Hqt, lookup_insert_eq. by rewrite Hqi.
    - intros tid t Ht Hi. left. rewrite Hqt in Ht.
      apply lookup_insert_Some in Ht as [[<- <-]|[_ Ht]]; [done|].
      apply lookup_insert_Some in Ht as [[<- <-]|[_ Ht]]; [done|].
      apply lookup_insert_Some in Ht as [[<- <-]|[_ Ht]]; [done|].
      pose proof (Hfresh tid t Ht). lia. }
  assert (Hidx : currentIndex p' = currentIndex p + 1).
  { rewrite Hp', progressionEffect_currentIndex
      by (rewrite Hqi; apply (wf_index p Hwf)).
    rewrite Hcomplete, Hqi, Hqc. by rewrite bool_decide_eq_true_2. }
  split_and!.
  - rewrite Hp'. apply (wellFormed_step q RunProgression Hq).
  - done.
  - rewrite Hp'. change (progressionEffect q) with (step q RunProgression).
    by rewrite step_childrenArray.
  - intros tid t Ht. rewrite Hidx.
    assert (Hst : state p' = state q).
    { rewrite Hp'. unfold progressionEffect.
      by destruct (isCurrentChildComplete q (currentIndex q)). }
    rewrite Hst in Ht. destruct (wf_tasks q Hq tid t Ht) as [_ [_ Hle]].
    rewrite Hqi in Hle. lia.
Qed.

Lemma run_app p evs evs' : run p (evs ++ evs') = run (run p evs) evs'.
Proof. apply foldl_app. Qed.

Lemma oneTaskPerStep_run name randoms : forall p,
  wellFormed p ->
  (forall tid task, tasks (state p) !! tid = Some task ->
                    Task.index task < currentIndex p) ->
  currentIndex p + Z.of_nat (length randoms)
  <= Z.of_nat (length (childrenArray p)) - 1 ->
  currentIndex (run p (oneTaskPerStep (currentIndex p) name randoms))
  = currentIndex p + Z.of_nat (length randoms).
Proof.
  induction randoms as [|random rest IH]; intros p Hwf Hfresh Hlen.
  - simpl. lia.
  - cbn [oneTaskPerStep]. rewrite run_app.
    destruct (one_step_forward p random name Hwf Hfresh)
      as (Hwf' & Hi & Hc & Hf).
    { simpl length in Hlen. lia. }
    rewrite <- Hi. rewrite (IH _ Hwf' Hf).
    + rewrite Hi. simpl length. lia.
    + rewrite Hc, Hi. simpl length in Hlen. lia.
Qed.

(** X26. A script runs to its last step. If each step in turn mounts one
    leaf operation whose body resolves, so that its task is registered,
    started and completed before the progression effect runs, then after
    [n] such steps the sequencer is at step [n], for every [n] up to the
    index of the last step. *)
Theorem script_runs_to_the_last_step
    (children : list ReactElement) (name : string) (randoms : list string)
    (Hsteps : (length randoms <= length children - 1)%nat) :
  currentIndex (run (mount children) (oneTaskPerStep 0 name randoms))
  = Z.of_nat (length randoms).
Proof.
  destruct randoms as [|random rest]; [done|].
  set (randoms := random :: rest) in *.
  change (oneTaskPerStep 0 name randoms)
    with (oneTaskPerStep (currentIndex (mount children)) name randoms).
  rewrite oneTaskPerStep_run.
  - simpl. lia.
  - apply wellFormed_mount.
  - intros tid task Ht.
    by destruct (lookup_empty_Some (M:=gmap string) tid task).
  - cbn [currentIndex childrenArray mount]. subst randoms.
    simpl length in *. lia.
Qed.

Lemma script_runs_to_the_last_step_witness :
  currentIndex
    (run (mount [Step "A"; Step "B"; Step "C"])
         (oneTaskPerStep 0 "Log" ["k3j9x2a"; "q8w1e5r"]))
  = 2.
Proof.
  apply (script_runs_to_the_last_step [Step "A"; Step "B"; Step "C"]
           "Log" ["k3j9x2a"; "q8w1e5r"]).
  simpl. lia.
Defined.

(** ** The tasks object and the store of task records *)

Section Object.

Implicit Types (m : gmap string Js.Fields) (f : Js.Fields).

Lemma get_own m id f : m !! id = Some f -> Js.get m id = Some (Js.Own f).
Proof. intros Hl. unfold Js.get. by rewrite Hl. Qed.

Lemma get_unknown m id :
  m !! id = None -> id ∉ Js.inherited -> Js.get m id = None.
Proof.
  intros Hl Hid. unfold Js.get. rewrite Hl. by rewrite bool_decide_eq_false_2.
Qed.

Lemma get_inherited m id :
  m !! id = None -> id ∈ Js.inherited -> Js.get m id = Some Js.Inherited.
Proof.
  intros Hl Hid. unfold Js.get. rewrite Hl. by rewrite bool_decide_eq_true_2.
Qed.

Lemma get_insert_ne m i id f : i <> id -> Js.get (<[i := f]> m) id = Js.get m id.
Proof. intros Hne. unfold Js.get. by rewrite lookup_insert_ne. Qed.

Lemma get_insert_eq m id f : Js.get (<[id := f]> m) id = Some (Js.Own f).
Proof. unfold Js.get. by rewrite lookup_insert_eq. Qed.

Lemma js_filteredTasks_filter k m :
  Js.filteredTasks k m = filter (fun kv => Js.keeps k kv.2 = true) m.
Proof.
  unfold Js.filteredTasks.
  apply (map_fold_weak_ind
           (fun r m' => r = filter (fun kv => Js.keeps k kv.2 = true) m')).
  - by rewrite map_filter_empty.
  - intros i x m' r Hi ->. destruct (Js.keeps k x) eqn:E.
    + by rewrite map_filter_insert_True.
    + rewrite map_filter_insert_False by (simpl; congruence).
      by rewrite delete_id.
Qed.

Lemma js_filteredTasks_lookup_Some k m tid f :
  Js.filteredTasks k m !! tid = Some f
  <-> m !! tid = Some f /\ Js.keeps k f = true.
Proof. rewrite js_filteredTasks_filter. apply map_lookup_filter_Some. Qed.

Lemma js_filteredTasks_lookup_None k m tid f :
  m !! tid = Some f -> Js.keeps k f = false ->
  Js.filteredTasks k m !! tid = None.
Proof.
  intros Hl Hk.
  destruct (Js.filteredTasks k m !! tid) as [g|] eqn:E; [|done].
  apply js_filteredTasks_lookup_Some in E as [E Hk']. congruence.
Qed.

Lemma keeps_fields k (task : Task) :
  Js.keeps k (Js.fields task) = bool_decide (Task.index task <= k).
Proof. done. Qed.

Lemma filteredTasks_embed k (m : gmap string Task) :
  Js.filteredTasks k (Js.fields <$> m) = Js.fields <$> filteredTasks k m.
Proof.
  apply map_eq. intros tid. apply option_eq. intros f.
  rewrite js_filteredTasks_lookup_Some, !lookup_fmap, !fmap_Some.
  split.
  - intros [(task & Hl & ->) Hk]. exists task. split; [|done].
    apply filteredTasks_lookup_Some. split; [done|].
    rewrite keeps_fields in Hk. by apply bool_decide_eq_true in Hk.
  - intros (task & Hl & ->).
    apply filteredTasks_lookup_Some in Hl as [Hl Hle]. split; [by eauto|].
    rewrite keeps_fields. by apply bool_decide_eq_true.
Qed.

Lemma get_embed (m : gmap string Task) id :
  id ∉ Js.inherited ->
  Js.get (Js.fields <$> m) id = (fun task => Js.Own (Js.fields task)) <$> m !! id.
Proof.
  intros Hid. unfold Js.get. rewrite lookup_fmap.
  destruct (m !! id) as [task|]; simpl; [done|].
  by rewrite bool_decide_eq_false_2.
Qed.

Lemma list_filter_ext_in {A} (P Q : A -> Prop)
    `{!forall x, Decision (P x)} `{!forall x, Decision (Q x)} (l : list A) :
  (forall x, x ∈ l -> P x <-> Q x) -> filter P l = filter Q l.
Proof.
  induction l as [|x l IH]; intros Hall; [done|].
  assert (Hx : P x <-> Q x) by (apply Hall; left).
  assert (Hl : filter P l = filter Q l).
  { apply IH. intros y Hy. apply Hall. by right. }
  destruct (decide (P x)) as [HP|HP].
  - rewrite !filter_cons_True by tauto. by rewrite Hl.
  - rewrite !filter_cons_False by tauto. exact Hl.
Qed.

Lemma ownIds_spec action :
  Js.ownIds action = true <-> forall id, id ∈ Js.idsOf action -> id ∉ Js.inherited.
Proof.
  unfold Js.ownIds. rewrite forallb_forall. split.
  - intros H id Hin. apply list_elem_of_In in Hin. apply H in Hin.
    apply negb_true_iff in Hin. by apply bool_decide_eq_false in Hin.
  - intros H id Hin. apply list_elem_of_In in Hin.
    apply negb_true_iff, bool_decide_eq_false. by apply H.
Qed.

(** On a store of task records none of whose keys and root ids is an
    inherited name, and for an action that names no inherited name, the
    reducer over the tasks object does what [taskReducer] does. *)
Lemma reducer_refines now (st : TaskState) action :
  ownKeys st -> Js.ownIds action = true ->
  Js.reducer now (embed st) action
  = Js.Next (embed (taskReducer now st action)).
Proof.
  intros [Hkeys Hroots] Hids. rewrite ownIds_spec in Hids.
  destruct action as [task|id|id|id err|id parentId|k];
    cbn [Js.reducer taskReducer embed Js.tasks Js.rootTaskIds
         Js.completedTaskIds].
  - unfold embed. cbn [tasks rootTaskIds completedTaskIds].
    by rewrite fmap_insert.
  - rewrite get_embed by (apply Hids; simpl; set_solver).
    destruct (tasks st !! id) as [task|]; [|done]. simpl.
    unfold embed. simpl. by rewrite fmap_insert.
  - rewrite get_embed by (apply Hids; simpl; set_solver).
    destruct (tasks st !! id) as [task|]; [|done]. simpl.
    unfold embed. simpl. by rewrite fmap_insert.
  - rewrite get_embed by (apply Hids; simpl; set_solver).
    destruct (tasks st !! id) as [task|]; [|done]. simpl.
    unfold embed. simpl. by rewrite fmap_insert.
  - rewrite !get_embed by (apply Hids; simpl; set_solver).
    destruct (tasks st !! id) as [task|]; [|done]. simpl.
    destruct (tasks st !! parentId) as [parent|]; [|done]. simpl.
    unfold embed. simpl. by rewrite !fmap_insert.
  - assert (Hproto : (Js.fields <$> tasks st) !! "__proto__" = None).
    { rewrite lookup_fmap.
      destruct (tasks st !! "__proto__") as [task|] eqn:E; [|done].
      exfalso. apply (Hkeys "__proto__"); [by eexists|].
      unfold Js.inherited. set_solver. }
    rewrite Hproto. unfold embed.
    cbn [tasks rootTaskIds completedTaskIds]. f_equal.
    rewrite filteredTasks_embed. f_equal.
    apply list_filter_ext_in. intros tid Hin.
    rewrite get_embed by by apply Hroots.
    by rewrite !is_Some_alt; destruct (filteredTasks k (tasks st) !! tid).
Qed.

End Object.

Section ObjectSteps.

Implicit Types (st : TaskState) (action : TaskAction).

Lemma ownKeys_taskReducer now st action :
  ownKeys st -> Js.ownIds action = true -> ownKeys (taskReducer now st action).
Proof.
  intros [Hkeys Hroots] Hids. rewrite ownIds_spec in Hids.
  assert (Hins : forall (m : gmap string Task) i x id,
             (forall id, is_Some (m !! id) -> id ∉ Js.inherited) ->
             i ∉ Js.inherited ->
             is_Some (<[i := x]> m !! id) -> id ∉ Js.inherited).
  { intros m i x id Hm Hi Hsome. destruct (decide (i = id)) as [<-|Hne];
      [done|]. rewrite lookup_insert_ne in Hsome by done. by apply Hm. }
  destruct action as [task|id|id|id err|id parentId|k]; simpl.
  - split; simpl.
    + intros id. apply Hins; [done|]. apply Hids. simpl. set_solver.
    + destruct (truthy (Task.parentId task)); [done|].
      intros id [Hin|Hin]%elem_of_app; [by apply Hroots|].
      apply list_elem_of_singleton in Hin as ->. apply Hids. simpl.
      set_solver.
  - destruct (tasks st !! id) as [task|]; [|done]. split; simpl; [|done].
    intros tid. apply Hins; [done|]. apply Hids. simpl. set_solver.
  - destruct (tasks st !! id) as [task|]; [|done]. split; simpl; [|done].
    intros tid. apply Hins; [done|]. apply Hids. simpl. set_solver.
  - destruct (tasks st !! id) as [task|]; [|done]. split; simpl; [|done].
    intros tid. apply Hins; [done|]. apply Hids. simpl. set_solver.
  - destruct (tasks st !! id) as [task|]; [|done].
    destruct (tasks st !! parentId) as [parent|]; [|done]. split; simpl.
    + intros tid. apply Hins; [|apply Hids; simpl; set_solver].
      intros tid'. apply Hins; [done|]. apply Hids. simpl. set_solver.
    + intros tid [_ Hin]%list_elem_of_filter. by apply Hroots.
  - split; simpl.
    + intros tid [task Hl]. apply filteredTasks_lookup_Some in Hl as [Hl _].
      apply Hkeys. by eexists.
    + intros tid [_ Hin]%list_elem_of_filter. by apply Hroots.
Qed.

Lemma ownKeys_initialState : ownKeys initialState.
Proof.
  split; simpl.
  - intros id [task Hl]. by rewrite lookup_empty in Hl.
  - intros id Hin. by apply elem_of_nil in Hin.
Qed.

Lemma embed_initialState : embed initialState = Js.initial.
Proof. unfold embed, Js.initial. simpl. by rewrite fmap_empty. Qed.

End ObjectSteps.

(** X27. An id that is neither a key of the tasks object nor a name every
    object inherits is ignored: [start], [complete], [fail] and [setParent]
    (whatever the other id) return the store they were given, and nothing
    is thrown. *)
Theorem unknown_id_is_ignored (now : Z) (st : Js.Store) (id : TaskId)
    (Hid : Js.tasks st !! id = None)
    (Hown : id ∉ Js.inherited) :
  Js.reducer now st (START_TASK id) = Js.Next st
  /\ Js.reducer now st (COMPLETE_TASK id) = Js.Next st
  /\ (forall err, Js.reducer now st (FAIL_TASK id err) = Js.Next st)
  /\ (forall parentId,
        Js.reducer now st (SET_PARENT id parentId) = Js.Next st)
  /\ (forall child, Js.reducer now st (SET_PARENT child id) = Js.Next st).
Proof.
  pose proof (get_unknown _ _ Hid Hown) as Hget.
  split_and!; try intros ?; simpl; rewrite Hget; try done.
  by destruct (Js.get (Js.tasks st) child).
Qed.

Lemma unknown_id_is_ignored_witness :
  let st := embed (state failedOnce) in
  Js.reducer 9 st (START_TASK "7-zzzzzzz") = Js.Next st
  /\ Js.reducer 9 st (COMPLETE_TASK "7-zzzzzzz") = Js.Next st
  /\ (forall err, Js.reducer 9 st (FAIL_TASK "7-zzzzzzz" err) = Js.Next st)
  /\ (forall parentId,
        Js.reducer 9 st (SET_PARENT "7-zzzzzzz" parentId) = Js.Next st)
  /\ (forall child,
        Js.reducer 9 st (SET_PARENT child "7-zzzzzzz") = Js.Next st).
Proof.
  apply (unknown_id_is_ignored 9 (embed (state failedOnce)) "7-zzzzzzz").
  - vm_compute. reflexivity.
  - apply (bool_decide_unpack _). vm_compute. exact I.
Defined.

(** X28. The store of task records is the tasks object. Starting from a
    store none of whose keys and root ids is a name every object inherits,
    and for actions that carry no such name as an id, the reducer neither
    throws nor replaces a prototype, and the object it returns holds under
    each key exactly the fields of the task [taskReducer] holds there, with
    the same [rootTaskIds] and [completedTaskIds]; no inherited name has
    become a key or a root id. *)
Theorem store_is_the_tasks_object
    (actions : list (Z * TaskAction)) (st : TaskState)
    (Hkeys : ownKeys st)
    (Hids : forallb (fun timed => Js.ownIds timed.2) actions = true) :
  Js.reduceAll (embed st) actions = Js.Next (embed (reduceAll st actions))
  /\ ownKeys (reduceAll st actions).
Proof.
  revert st Hkeys Hids. induction actions as [|[now action] actions IH];
    intros st Hkeys Hids; [done|].
  simpl in Hids. apply andb_true_iff in Hids as [Hid Hids].
  cbn [Js.reduceAll]. rewrite (reducer_refines now st action Hkeys Hid).
  apply IH; [|done]. by apply ownKeys_taskReducer.
Qed.

Lemma store_is_the_tasks_object_witness :
  Js.reduceAll (embed initialState)
    [(0, REGISTER_TASK (newTask 0 "p000000" "Prompt: name" None));
     (0, REGISTER_TASK (newTask 0 "c000000" "Log" None));
     (3, START_TASK "0-c000000");
     (4, SET_PARENT "0-c000000" "0-p000000");
     (5, COMPLETE_TASK "0-c000000");
     (6, FAIL_TASK "0-p000000" (mkError "interrupted"));
     (7, START_TASK "1-q8w1e5r");
     (8, CLEANUP_TASKS 0)]
  = Js.Next
      (embed
         (reduceAll initialState
            [(0, REGISTER_TASK (newTask 0 "p000000" "Prompt: name" None));
             (0, REGISTER_TASK (newTask 0 "c000000" "Log" None));
             (3, START_TASK "0-c000000");
             (4, SET_PARENT "0-c000000" "0-p000000");
             (5, COMPLETE_TASK "0-c000000");
             (6, FAIL_TASK "0-p000000" (mkError "interrupted"));
             (7, START_TASK "1-q8w1e5r");
             (8, CLEANUP_TASKS 0)])).
Proof.
  apply (store_is_the_tasks_object
           [(0, REGISTER_TASK (newTask 0 "p000000" "Prompt: name" None));
            (0, REGISTER_TASK (newTask 0 "c000000" "Log" None));
            (3, START_TASK "0-c000000");
            (4, SET_PARENT "0-c000000" "0-p000000");
            (5, COMPLETE_TASK "0-c000000");
            (6, FAIL_TASK "0-p000000" (mkError "interrupted"));
            (7, START_TASK "1-q8w1e5r");
            (8, CLEANUP_TASKS 0)]
           initialState).
  - apply ownKeys_initialState.
  - vm_compute. reflexivity.
Defined.

(** ** Identity and keys of the tasks object *)

Section ObjectFacts.

Implicit Types (st : Js.Store) (m : gmap string Js.Fields) (f : Js.Fields).

Lemma get_Some_not_inherited m id v :
  id ∉ Js.inherited -> Js.get m id = Some v ->
  exists f, m !! id = Some f /\ v = Js.Own f.
Proof.
  intros Hid. unfold Js.get. destruct (m !! id) as [f|].
  - intros [= <-]. by exists f.
  - by rewrite bool_decide_eq_false_2.
Qed.

Lemma cleanup_Next now st st' k :
  Js.reducer now st (CLEANUP_TASKS k) = Js.Next st' ->
  st' = {| Js.tasks := Js.filteredTasks k (Js.tasks st);
           Js.rootTaskIds :=
             filter (fun id =>
                       is_Some (Js.get (Js.filteredTasks k (Js.tasks st)) id))
                    (Js.rootTaskIds st);
           Js.completedTaskIds := Js.completedTaskIds st |}.
Proof.
  simpl. destruct (Js.tasks st !! "__proto__") as [f|].
  - destruct (Js.keeps k f); [done|]. by intros [= <-].
  - by intros [= <-].
Qed.

Lemma js_reducer_lookup_kept now st st' action tid f' :
  tid ∉ Js.inherited ->
  sparesId tid action = true ->
  Js.reducer now st action = Js.Next st' ->
  Js.tasks st' !! tid = Some f' ->
  exists f, Js.tasks st !! tid = Some f /\ sameIdentity f' f.
Proof.
  intros Htid Hs Hrun Hl.
  assert (Hins : forall id v g,
             Js.get (Js.tasks st) id = Some v ->
             sameIdentity g (Js.spread v) ->
             <[id := g]> (Js.tasks st) !! tid = Some f' ->
             exists f, Js.tasks st !! tid = Some f /\ sameIdentity f' f).
  { intros id v g Hget Hsame Hlook.
    destruct (decide (id = tid)) as [->|Hne].
    - rewrite lookup_insert_eq in Hlook. injection Hlook as <-.
      destruct (get_Some_not_inherited _ _ _ Htid Hget) as (f & Hf & ->).
      by exists f.
    - rewrite lookup_insert_ne in Hlook by done. by exists f'. }
  destruct action as [t|id|id|id err|id parentId|k].
  - simpl in Hrun, Hs. injection Hrun as <-. simpl in Hl.
    apply negb_true_iff, String.eqb_neq in Hs.
    rewrite lookup_insert_ne in Hl by done. by exists f'.
  - simpl in Hrun. destruct (Js.get (Js.tasks st) id) as [v|] eqn:E;
      injection Hrun as <-; [|by exists f'].
    simpl in Hl. eapply (Hins id v); [exact E| |exact Hl]. done.
  - simpl in Hrun. destruct (Js.get (Js.tasks st) id) as [v|] eqn:E;
      injection Hrun as <-; [|by exists f'].
    simpl in Hl. eapply (Hins id v); [exact E| |exact Hl]. done.
  - simpl in Hrun. destruct (Js.get (Js.tasks st) id) as [v|] eqn:E;
      injection Hrun as <-; [|by exists f'].
    simpl in Hl. eapply (Hins id v); [exact E| |exact Hl]. done.
  - simpl in Hrun.
    destruct (Js.get (Js.tasks st) id) as [v|] eqn:E;
      [|injection Hrun as <-; by exists f'].
    destruct (Js.get (Js.tasks st) parentId) as [w|] eqn:E';
      [|injection Hrun as <-; by exists f'].
    destruct (Js.childIds (Js.spread w)) as [children|]; [|done].
    injection Hrun as <-. simpl in Hl.
    destruct (decide (parentId = tid)) as [->|Hne].
    + rewrite lookup_insert_eq in Hl. injection Hl as <-.
      destruct (get_Some_not_inherited _ _ _ Htid E') as (f & Hf & ->).
      by exists f.
    + rewrite lookup_insert_ne in Hl by done.
      eapply (Hins id v); [exact E| |exact Hl]. done.
  - apply cleanup_Next in Hrun as ->. simpl in Hl.
    apply js_filteredTasks_lookup_Some in Hl as [Hl _]. by exists f'.
Qed.

End ObjectFacts.

(** X1. A task's identity never changes. For an id that is not a name
    every object inherits: after any sequence of store operations that
    comes to a store and none of which registers a task under that id
    again, what is found under the id was already there, with the same
    [id], [name] and [stepIndex]. *)
Theorem identity_is_kept (actions : list (Z * TaskAction))
    (st st' : Js.Store) (tid : TaskId) (f' : Js.Fields)
    (Htid : tid ∉ Js.inherited)
    (Hspare : forallb (fun timed => sparesId tid timed.2) actions = true)
    (Hrun : Js.reduceAll st actions = Js.Next st')
    (Hafter : Js.tasks st' !! tid = Some f') :
  exists f,
    Js.tasks st !! tid = Some f
    /\ Js.id f' = Js.id f
    /\ Js.name f' = Js.name f
    /\ Js.index f' = Js.index f.
Proof.
  revert st Hspare Hrun.
  induction actions as [|[now a] actions IH]; intros st Hspare Hrun.
  - injection Hrun as <-. by exists f'.
  - simpl in Hspare. apply andb_true_iff in Hspare as [Ha Hrest].
    cbn [Js.reduceAll] in Hrun.
    destruct (Js.reducer now st a) as [st1| |] eqn:E; try done.
    destruct (IH st1 Hrest Hrun) as (f1 & Hl1 & Hid1 & Hn1 & Hi1).
    destruct (js_reducer_lookup_kept now st st1 a tid f1 Htid Ha E Hl1)
      as (f0 & Hl0 & Hid0 & Hn0 & Hi0).
    exists f0. split_and!; congruence.
Qed.

Lemma identity_is_kept_witness :
  exists f,
    Js.tasks (embed (state failedOnce)) !! "0-k3j9x2a" = Some f
    /\ Some "0-k3j9x2a" = Js.id f
    /\ Some "Shell: ls" = Js.name f
    /\ Some 0 = Js.index f.
Proof.
  apply (identity_is_kept
           [(7, START_TASK "0-k3j9x2a"); (8, COMPLETE_TASK "0-k3j9x2a");
            (9, SET_PARENT "0-k3j9x2a" "0-k3j9x2a"); (10, CLEANUP_TASKS 0)]
           (embed (state failedOnce))
           {| Js.tasks :=
                {["0-k3j9x2a" :=
                    Js.mkFields (Some "0-k3j9x2a") (Some "Shell: ls")
                                (Some completed) (Some (mkError "exit 1"))
                                (Some 7) (Some 8) None
                                (Some ["0-k3j9x2a"]) (Some 0)]};
              Js.rootTaskIds := [];
              Js.completedTaskIds := ["0-k3j9x2a"] |}
           "0-k3j9x2a"
           (Js.mkFields (Some "0-k3j9x2a") (Some "Shell: ls")
                        (Some completed) (Some (mkError "exit 1"))
                        (Some 7) (Some 8) None
                        (Some ["0-k3j9x2a"]) (Some 0))).
  - apply (bool_decide_unpack _). vm_compute. exact I.
  - reflexivity.
  - vm_compute. reflexivity.
  - vm_compute. reflexivity.
Defined.

(** X2. Which operations change the set of keys of the tasks object:
    [register] adds the id of its task and nothing else; [start],
    [complete], [fail] and [setParent] never take a key away, and the only
    key they can add is an id of theirs that is a name every object
    inherits, so that for other ids the set of keys stays as it is;
    [pruneAbove] only takes keys away. *)
Theorem store_domain (now : Z) (st : Js.Store) :
  (forall task,
      exists st',
        Js.reducer now st (REGISTER_TASK task) = Js.Next st'
        /\ dom (Js.tasks st') = {[Task.id task]} ∪ dom (Js.tasks st))
  /\ (forall action st',
        (forall task, action <> REGISTER_TASK task) ->
        (forall k, action <> CLEANUP_TASKS k) ->
        Js.reducer now st action = Js.Next st' ->
        dom (Js.tasks st) ⊆ dom (Js.tasks st')
        /\ (forall key,
              key ∈ dom (Js.tasks st') ->
              key ∈ dom (Js.tasks st)
              \/ (key ∈ Js.idsOf action /\ key ∈ Js.inherited))
        /\ (Js.ownIds action = true ->
            dom (Js.tasks st') = dom (Js.tasks st)))
  /\ (forall k st',
        Js.reducer now st (CLEANUP_TASKS k) = Js.Next st' ->
        dom (Js.tasks st') ⊆ dom (Js.tasks st)).
Proof.
  assert (Hins : forall id v g,
             Js.get (Js.tasks st) id = Some v ->
             dom (Js.tasks st) ⊆ dom (<[id := g]> (Js.tasks st))
             /\ (forall key,
                   key ∈ dom (<[id := g]> (Js.tasks st)) ->
                   key ∈ dom (Js.tasks st) \/ (key = id /\ key ∈ Js.inherited))).
  { intros id v g Hget. rewrite dom_insert_L. split; [set_solver|].
    intros key [->%elem_of_singleton|Hin]%elem_of_union; [|by left].
    unfold Js.get in Hget.
    destruct (Js.tasks st !! id) as [f|] eqn:E.
    - left. apply elem_of_dom. by eexists.
    - right. split; [done|]. by case_bool_decide. }
  assert (Hmain : forall action st',
             (forall task, action <> REGISTER_TASK task) ->
             (forall k, action <> CLEANUP_TASKS k) ->
             Js.reducer now st action = Js.Next st' ->
             dom (Js.tasks st) ⊆ dom (Js.tasks st')
             /\ (forall key,
                   key ∈ dom (Js.tasks st') ->
                   key ∈ dom (Js.tasks st)
                   \/ (key ∈ Js.idsOf action /\ key ∈ Js.inherited))).
  { intros action st' Hreg Hclean Hrun.
    destruct action as [t|id|id|id err|id parentId|k];
      [by destruct (Hreg t)| | | | |by destruct (Hclean k)]; simpl in Hrun.
    - destruct (Js.get (Js.tasks st) id) as [v|] eqn:E;
        injection Hrun as <-; [|split; [done|by left]].
      destruct (Hins id v (Js.started now (Js.spread v)) E) as [H1 H2].
      split; [done|]. intros key Hkey.
      destruct (H2 key Hkey) as [?|[-> ?]]; [by left|right].
      split; [simpl; left|done].
    - destruct (Js.get (Js.tasks st) id) as [v|] eqn:E;
        injection Hrun as <-; [|split; [done|by left]].
      destruct (Hins id v (Js.finished now (Js.spread v)) E) as [H1 H2].
      split; [done|]. intros key Hkey.
      destruct (H2 key Hkey) as [?|[-> ?]]; [by left|right].
      split; [simpl; left|done].
    - destruct (Js.get (Js.tasks st) id) as [v|] eqn:E;
        injection Hrun as <-; [|split; [done|by left]].
      destruct (Hins id v (Js.broken now err (Js.spread v)) E) as [H1 H2].
      split; [done|]. intros key Hkey.
      destruct (H2 key Hkey) as [?|[-> ?]]; [by left|right].
      split; [simpl; left|done].
    - destruct (Js.get (Js.tasks st) id) as [v|] eqn:E;
        [|injection Hrun as <-; split; [done|by left]].
      destruct (Js.get (Js.tasks st) parentId) as [w|] eqn:E';
        [|injection Hrun as <-; split; [done|by left]].
      destruct (Js.childIds (Js.spread w)) as [children|]; [|done].
      injection Hrun as <-. cbn [Js.tasks].
      destruct (Hins id v (Js.withParent parentId (Js.spread v)) E)
        as [H1 H2].
      destruct (Hins parentId w
                  (Js.withChildIds (children ++ [id]) (Js.spread w)) E')
        as [H3 H4].
      rewrite (dom_insert_L _ parentId). split.
      { etrans; [exact H1|]. apply union_subseteq_r. }
      intros key [->%elem_of_singleton|Hkey]%elem_of_union.
      + destruct (H4 parentId) as [?|[_ ?]]; [|by left|right].
        { rewrite dom_insert_L. apply elem_of_union_l.
          by apply elem_of_singleton. }
        split; [simpl; right; left|done].
      + destruct (H2 key Hkey) as [?|[-> ?]]; [by left|right].
        split; [simpl; left|done]. }
  split_and!.
  - intros task. eexists. split; [done|]. simpl. apply dom_insert_L.
  - intros action st' Hreg Hclean Hrun.
    destruct (Hmain action st' Hreg Hclean Hrun) as [H1 H2].
    split; [done|]. split; [done|].
    intros Hown. rewrite ownIds_spec in Hown.
    apply set_eq. intros key. split; [|by apply H1].
    intros Hkey. destruct (H2 key Hkey) as [?|[Hin Hinh]]; [done|].
    by destruct (Hown key Hin).
  - intros k st' Hrun. apply cleanup_Next in Hrun as ->. simpl.
    rewrite js_filteredTasks_filter. apply dom_filter_subseteq.
Qed.

(** ** The queries *)

(** X4. The status queries follow the last transition of a task that is
    in the store: after [complete] the task is completed and not failed;
    after [fail] it is failed, not completed, and [getTask] shows the
    error; after [start] it is neither. For an id that is no key of the
    tasks object and no name every object inherits, both status queries
    answer [false], [getTask] finds nothing and [getChildren] is empty; for
    an inherited name that is no key, [getTask] returns what the prototype
    holds, the status queries answer [false] and [getChildren] throws a
    [TypeError]. *)
Theorem queries_follow_transitions (now : Z) (st : Js.Store) :
  (forall (id : TaskId) (f : Js.Fields) (err : Error),
      Js.tasks st !! id = Some f ->
      exists completedSt failedSt startedSt,
        Js.reducer now st (COMPLETE_TASK id) = Js.Next completedSt
        /\ Js.reducer now st (FAIL_TASK id err) = Js.Next failedSt
        /\ Js.reducer now st (START_TASK id) = Js.Next startedSt
        /\ (Js.isCompleted completedSt id = true
            /\ Js.hasFailed completedSt id = false)
        /\ (Js.hasFailed failedSt id = true
            /\ Js.isCompleted failedSt id = false
            /\ Js.getTask failedSt id
               = Some (Js.Own
                         (Js.mkFields (Js.id f) (Js.name f) (Some failed)
                                      (Some err) (Js.startTime f) (Some now)
                                      (Js.parentId f) (Js.childIds f)
                                      (Js.index f))))
        /\ (Js.isCompleted startedSt id = false
            /\ Js.hasFailed startedSt id = false))
  /\ (forall unknown : TaskId,
        Js.tasks st !! unknown = None -> unknown ∉ Js.inherited ->
        Js.isCompleted st unknown = false
        /\ Js.hasFailed st unknown = false
        /\ Js.getTask st unknown = None
        /\ Js.getChildren st unknown = Some [])
  /\ (forall unknown : TaskId,
        Js.tasks st !! unknown = None -> unknown ∈ Js.inherited ->
        Js.isCompleted st unknown = false
        /\ Js.hasFailed st unknown = false
        /\ Js.getTask st unknown = Some Js.Inherited
        /\ Js.getChildren st unknown = None).
Proof.
  split_and!.
  - intros id f err Hid. pose proof (get_own _ _ _ Hid) as Hget.
    eexists _, _, _. simpl. rewrite Hget. split_and!; try reflexivity;
      unfold Js.isCompleted, Js.hasFailed, Js.getTask; simpl;
      by rewrite get_insert_eq.
  - intros unknown Hl Hown. pose proof (get_unknown _ _ Hl Hown) as Hget.
    unfold Js.isCompleted, Js.hasFailed, Js.getTask, Js.getChildren.
    by rewrite Hget.
  - intros unknown Hl Hinh. pose proof (get_inherited _ _ Hl Hinh) as Hget.
    unfold Js.isCompleted, Js.hasFailed, Js.getTask, Js.getChildren.
    by rewrite Hget.
Qed.

Section Children.

Implicit Types (m : gmap string Js.Fields) (f : Js.Fields)
  (l : list TaskId).

Lemma get_filteredTasks k m c :
  c ∉ Js.inherited ->
  Js.get (Js.filteredTasks k m) c
  = match Js.get m c with
    | Some v => if Js.keeps k (Js.spread v) then Some v else None
    | None => None
    end.
Proof.
  intros Hc. unfold Js.get. rewrite (bool_decide_eq_false_2 _ Hc).
  destruct (m !! c) as [f|] eqn:E; simpl.
  - destruct (Js.keeps k f) eqn:Ek.
    + by rewrite (proj2 (js_filteredTasks_lookup_Some k m c f)).
    + by rewrite (js_filteredTasks_lookup_None k m c f).
  - destruct (Js.filteredTasks k m !! c) as [g|] eqn:E'; [|done].
    apply js_filteredTasks_lookup_Some in E' as [E' _]. congruence.
Qed.

Lemma omap_get_filteredTasks k m l :
  Forall (fun c => c ∉ Js.inherited) l ->
  omap (Js.get (Js.filteredTasks k m)) l
  = filter (fun v => Js.keeps k (Js.spread v) = true) (omap (Js.get m) l).
Proof.
  induction 1 as [|c l Hc Hl IH]; [done|]. cbn [omap list_omap].
  rewrite IH, get_filteredTasks by done.
  destruct (Js.get m c) as [v|]; [|done].
  destruct (Js.keeps k (Js.spread v)) eqn:Ek.
  - by rewrite filter_cons_True.
  - rewrite filter_cons_False; [done|]. congruence.
Qed.

Lemma omap_get_insert_ne m l i f :
  i ∉ l -> omap (Js.get (<[i := f]> m)) l = omap (Js.get m) l.
Proof.
  induction l as [|c l IH]; intros Hnot; [done|].
  apply not_elem_of_cons in Hnot as [Hne Hnot]. cbn [omap list_omap].
  rewrite get_insert_ne by done. by rewrite IH.
Qed.

Lemma keeps_true k f :
  Js.keeps k f = true <-> exists i, Js.index f = Some i /\ i <= k.
Proof.
  unfold Js.keeps. destruct (Js.index f) as [i|].
  - rewrite bool_decide_eq_true. split; [by exists i|].
    by intros (? & [= <-] & ?).
  - split; [done|]. by intros (? & ? & ?).
Qed.

End Children.

(** X5. [getChildren] after [pruneAbove(k)], when no id in the parent's
    [childIds] is a name every object inherits. For a parent that survives
    the pruning (its [stepIndex] is at most [k]), the children it reports
    are the children it reported before that have a [stepIndex] of at most
    [k], in the same order; the pruned ones are left out without an error,
    although [childIds] still names them. A pruned parent reports no
    children, unless its own id is an inherited name: then [getChildren]
    throws a [TypeError]. *)
Theorem getChildren_after_pruneAbove
    (now : Z) (st st' : Js.Store) (k : Z) (p : TaskId) (f : Js.Fields)
    (children : list TaskId)
    (Hp : Js.tasks st !! p = Some f)
    (Hchildren : Js.childIds f = Some children)
    (Hnames : Forall (fun c => c ∉ Js.inherited) children)
    (Hrun : Js.reducer now st (CLEANUP_TASKS k) = Js.Next st') :
  (forall i, Js.index f = Some i -> i <= k ->
     Js.getChildren st p = Some (omap (Js.get (Js.tasks st)) children)
     /\ Js.getChildren st' p
        = Some (filter (fun v => Js.keeps k (Js.spread v) = true)
                       (omap (Js.get (Js.tasks st)) children))
     /\ Js.getTask st' p = Some (Js.Own f))
  /\ ((forall i, Js.index f = Some i -> k < i) ->
      (p ∉ Js.inherited -> Js.getChildren st' p = Some [])
      /\ (p ∈ Js.inherited -> Js.getChildren st' p = None)).
Proof.
  apply cleanup_Next in Hrun as ->.
  unfold Js.getChildren, Js.getTask. cbn [Js.tasks]. split.
  - intros i Hi Hle.
    assert (Hk : Js.keeps k f = true) by (apply keeps_true; eauto).
    rewrite (get_own _ _ _ Hp).
    rewrite (get_own _ p f)
      by by apply js_filteredTasks_lookup_Some.
    simpl. rewrite Hchildren. split; [done|]. split; [|done].
    f_equal. by apply omap_get_filteredTasks.
  - intros Hgt.
    assert (Hk : Js.keeps k f = false).
    { apply not_true_is_false. intros (i & Hi & Hle)%keeps_true.
      specialize (Hgt i Hi). lia. }
    pose proof (js_filteredTasks_lookup_None k _ p f Hp Hk) as Hnone.
    split; intros Hinh.
    + by rewrite (get_unknown _ _ Hnone Hinh).
    + by rewrite (get_inherited _ _ Hnone Hinh).
Qed.

Lemma getChildren_after_pruneAbove_witness :
  let st' :=
    embed (taskReducer 0 family (CLEANUP_TASKS 0)) in
  Js.getChildren (embed family) "0-p000000"
  = Some [Js.Own (Js.mkFields (Some "0-c000000") (Some "Log")
                              (Some completed) None None (Some 6)
                              (Some "0-p000000") (Some []) (Some 0));
          Js.Own (Js.mkFields (Some "1-d000000") (Some "Log")
                              (Some pending) None None None
                              (Some "0-p000000") (Some []) (Some 1))]
  /\ Js.getChildren st' "0-p000000"
     = Some [Js.Own (Js.mkFields (Some "0-c000000") (Some "Log")
                                 (Some completed) None None (Some 6)
                                 (Some "0-p000000") (Some []) (Some 0))]
  /\ (Js.childIds <$> (Js.spread <$> Js.getTask st' "0-p000000"))
     = Some (Some ["0-c000000"; "1-d000000"]).
Proof.
  destruct (getChildren_after_pruneAbove 0 (embed family)
              (embed (taskReducer 0 family (CLEANUP_TASKS 0)))
              0 "0-p000000"
              (Js.mkFields (Some "0-p000000") (Some "Prompt: name")
                           (Some completed) None None (Some 5) None
                           (Some ["0-c000000"; "1-d000000"]) (Some 0))
              ["0-c000000"; "1-d000000"])
    as [Hkeep _].
  - vm_compute. reflexivity.
  - reflexivity.
  - repeat constructor; apply (bool_decide_unpack _); vm_compute; exact I.
  - vm_compute. reflexivity.
  - destruct (Hkeep 0) as (Hbefore & Hafter & Htask); [reflexivity|lia|].
    split; [vm_compute; reflexivity|].
    split; [vm_compute; reflexivity|]. by rewrite Htask.
Defined.

(** X6. [setParent] then [getChildren]: when [id] and [p] are two
    different tasks and neither is yet among the children of [p],
    [getChildren(p)] after [setParent(id, p)] is what it was, followed by
    the task [id] with its [parentId] set to [p]. *)
Theorem getChildren_after_setParent
    (now : Z) (st : Js.Store) (id p : TaskId) (f parent : Js.Fields)
    (children : list TaskId)
    (Hid : Js.tasks st !! id = Some f)
    (Hp : Js.tasks st !! p = Some parent)
    (Hchildren : Js.childIds parent = Some children)
    (Hne : id <> p)
    (Hnew : id ∉ children)
    (Hself : p ∉ children) :
  exists st' before,
    Js.reducer now st (SET_PARENT id p) = Js.Next st'
    /\ Js.getChildren st p = Some before
    /\ Js.getChildren st' p
       = Some (before
               ++ [Js.Own (Js.mkFields (Js.id f) (Js.name f) (Js.status f)
                                       (Js.error f) (Js.startTime f)
                                       (Js.endTime f) (Some p)
                                       (Js.childIds f) (Js.index f))]).
Proof.
  eexists _, _. simpl. rewrite (get_own _ _ _ Hid), (get_own _ _ _ Hp).
  simpl. rewrite Hchildren. split; [reflexivity|].
  unfold Js.getChildren. rewrite (get_own _ _ _ Hp). simpl.
  rewrite Hchildren. split; [reflexivity|].
  rewrite get_insert_eq. simpl. rewrite omap_app. simpl.
  rewrite get_insert_ne by done. rewrite get_insert_eq.
  by rewrite !omap_get_insert_ne by done.
Qed.

Lemma getChildren_after_setParent_witness :
  exists st' before,
    Js.reducer 0 (embed parentAndChild) (SET_PARENT "0-c000000" "0-p000000")
    = Js.Next st'
    /\ Js.getChildren (embed parentAndChild) "0-p000000" = Some before
    /\ Js.getChildren st' "0-p000000"
       = Some (before
               ++ [Js.Own (Js.mkFields (Some "0-c000000") (Some "Log")
                                       (Some pending) None None None
                                       (Some "0-p000000") (Some [])
                                       (Some 0))]).
Proof.
  apply (getChildren_after_setParent 0 (embed parentAndChild)
           "0-c000000" "0-p000000"
           (Js.fields (newTask 0 "c000000" "Log" None))
           (Js.fields (newTask 0 "p000000" "Prompt: name" None))
           []).
  - vm_compute. reflexivity.
  - vm_compute. reflexivity.
  - reflexivity.
  - discriminate.
  - apply not_elem_of_nil.
  - apply not_elem_of_nil.
Defined.

(** X7. A task made its own parent: [setParent(id, id)] on a task of the
    store appends [id] to its own [childIds] and takes it out of
    [rootTaskIds], but leaves its [parentId] as it was, the parent's record
    being written last under the same key; every other task stays as it
    was. *)
Theorem setParent_to_itself
    (now : Z) (st : Js.Store) (id : TaskId) (f : Js.Fields)
    (children : list TaskId)
    (Hid : Js.tasks st !! id = Some f)
    (Hchildren : Js.childIds f = Some children) :
  exists st',
    Js.reducer now st (SET_PARENT id id) = Js.Next st'
    /\ Js.tasks st' !! id
       = Some (Js.mkFields (Js.id f) (Js.name f) (Js.status f) (Js.error f)
                           (Js.startTime f) (Js.endTime f) (Js.parentId f)
                           (Some (children ++ [id])) (Js.index f))
    /\ (id ∉ Js.rootTaskIds st')
    /\ (forall other, other <> id ->
                      Js.tasks st' !! other = Js.tasks st !! other)
    /\ Js.completedTaskIds st' = Js.completedTaskIds st.
Proof.
  eexists. simpl. rewrite (get_own _ _ _ Hid). simpl. rewrite Hchildren.
  split; [reflexivity|]. simpl. rewrite lookup_insert_eq.
  split_and!; try done.
  - intros Hin. by apply list_elem_of_filter in Hin as [Hne _].
  - intros other Hne. by rewrite !lookup_insert_ne by done.
Qed.

Lemma setParent_to_itself_witness :
  exists st',
    Js.reducer 0 (embed parentAndChild) (SET_PARENT "0-c000000" "0-c000000")
    = Js.Next st'
    /\ Js.tasks st' !! "0-c000000"
       = Some (Js.mkFields (Some "0-c000000") (Some "Log") (Some pending)
                           None None None None (Some ["0-c000000"])
                           (Some 0))
    /\ ("0-c000000" ∉ Js.rootTaskIds st')
    /\ (forall other, other <> "0-c000000" ->
          Js.tasks st' !! other = Js.tasks (embed parentAndChild) !! other)
    /\ Js.completedTaskIds st' = Js.completedTaskIds (embed parentAndChild).
Proof.
  apply (setParent_to_itself 0 (embed parentAndChild) "0-c000000"
           (Js.fields (newTask 0 "c000000" "Log" None)) []).
  - vm_compute. reflexivity.
  - reflexivity.
Defined.

(** ** The provider and the tasks object *)

Section ProviderObject.

Implicit Types (p : Provider) (st : TaskState) (ev : Event).

Lemma app_char_in (s r : string) (c : Ascii.ascii) :
  In c (String.list_ascii_of_string (s +:+ String c r)).
Proof. induction s as [|a s IH]; simpl; [by left|by right]. Qed.

Lemma newTaskId_not_inherited currentIndex random :
  newTaskId currentIndex random ∉ Js.inherited.
Proof.
  unfold newTaskId.
  pose proof (app_char_in (pretty currentIndex) random (Ascii.ascii_of_nat 45)) as Hdash.
  change (pretty currentIndex +:+ "-" +:+ random)
    with (pretty currentIndex +:+ String (Ascii.ascii_of_nat 45) random).
  intros Hin. unfold Js.inherited in Hin.
  repeat (apply elem_of_cons in Hin as [Heq|Hin];
          [rewrite Heq in Hdash; vm_compute in Hdash;
           repeat (destruct Hdash as [Hdash|Hdash]; [discriminate|]);
           exact Hdash|]).
  by apply elem_of_nil in Hin.
Qed.

Lemma list_filter_fmap {A B} (f : A -> B) (P : B -> Prop) (Q : A -> Prop)
    `{!forall x, Decision (P x)} `{!forall x, Decision (Q x)} (l : list A) :
  (forall x, P (f x) <-> Q x) -> filter P (f <$> l) = f <$> filter Q l.
Proof.
  intros HPQ. induction l as [|x l IH]; [done|]. cbn [fmap list_fmap].
  destruct (decide (Q x)) as [HQ|HQ].
  - rewrite (filter_cons_True P) by by apply HPQ.
    rewrite (filter_cons_True Q) by done.
    cbn [fmap list_fmap]. by rewrite IH.
  - rewrite (filter_cons_False P) by by rewrite HPQ.
    by rewrite (filter_cons_False Q).
Qed.

Lemma childTasks_embed st i :
  Js.childTasks (embed st) i = Js.fields <$> childTasks st i.
Proof.
  unfold Js.childTasks, childTasks, embed. cbn [Js.tasks].
  rewrite map_to_list_fmap.
  rewrite <- list_fmap_compose.
  rewrite (list_fmap_ext (snd ∘ prod_map Datatypes.id Js.fields)
                         (Js.fields ∘ snd) (map_to_list (tasks st)))
    by (by intros ? [? ?]).
  rewrite list_fmap_compose.
  apply list_filter_fmap. intros task. simpl. split; congruence.
Qed.

Lemma isComplete_embed st i : Js.isComplete (embed st) i = isComplete st i.
Proof.
  unfold Js.isComplete, isComplete. rewrite childTasks_embed.
  rewrite length_fmap. f_equal.
  induction (childTasks st i) as [|task l IH]; [done|].
  cbn [fmap list_fmap forallb]. rewrite IH. f_equal. f_equal.
  simpl. apply bool_decide_ext. split; congruence.
Qed.

Lemma progressionEffect_embed p :
  Js.progressionEffect (embedProvider p) = embedProvider (progressionEffect p).
Proof.
  unfold Js.progressionEffect, progressionEffect,
    Js.isCurrentChildComplete, isCurrentChildComplete, embedProvider.
  cbn [Js.childrenArray Js.state Js.currentIndex Js.previousCompletionState].
  rewrite isComplete_embed.
  by destruct (nodeAt (childrenArray p) (currentIndex p)).
Qed.

Lemma dispatch_embed now action p :
  ownKeys (state p) -> Js.ownIds action = true ->
  Js.dispatch now action (embedProvider p)
  = Some (embedProvider (dispatch now action p)).
Proof.
  intros Hkeys Hids. unfold Js.dispatch. cbn [embedProvider Js.state].
  by rewrite (reducer_refines now (state p) action Hkeys Hids).
Qed.

(** One event: the provider over the tasks object does what the provider of
    task records does. *)
Lemma step_refines p ev :
  ownKeys (state p) -> namesOwn ev = true ->
  Js.step (embedProvider p) ev = Some (embedProvider (step p ev))
  /\ ownKeys (state (step p ev)).
Proof.
  intros Hkeys Hev.
  assert (Hreg : forall random name parentId,
             Js.ownIds (REGISTER_TASK
                          (newTask (currentIndex p) random name parentId))
             = true).
  { intros random name parentId. apply ownIds_spec.
    intros id Hin. simpl in Hin. apply list_elem_of_singleton in Hin as ->.
    apply newTaskId_not_inherited. }
  destruct ev as [random name parentId|now id|now id|now id err
                 |id parentId| |]; cbn [Js.step step].
  - unfold Js.registerTask, registerTask. cbn [snd].
    change (Js.currentIndex (embedProvider p)) with (currentIndex p).
    split; [by apply dispatch_embed|].
    by apply ownKeys_taskReducer.
  - split; [by apply dispatch_embed|]. by apply ownKeys_taskReducer.
  - split; [by apply dispatch_embed|]. by apply ownKeys_taskReducer.
  - split; [by apply dispatch_embed|]. by apply ownKeys_taskReducer.
  - split; [by apply dispatch_embed|]. by apply ownKeys_taskReducer.
  - unfold Js.cleanupEffect, cleanupEffect.
    change (Js.currentIndex (embedProvider p)) with (currentIndex p).
    split; [by apply dispatch_embed|]. by apply ownKeys_taskReducer.
  - split; [by rewrite progressionEffect_embed|].
    unfold progressionEffect.
    by destruct (isCurrentChildComplete p (currentIndex p)).
Qed.

Lemma run_refines p evs :
  ownKeys (state p) -> forallb namesOwn evs = true ->
  Js.run (embedProvider p) evs = Some (embedProvider (run p evs))
  /\ ownKeys (state (run p evs)).
Proof.
  revert p. induction evs as [|ev evs IH]; intros p Hkeys Hevs; [done|].
  simpl in Hevs. apply andb_true_iff in Hevs as [Hev Hevs].
  destruct (step_refines p ev Hkeys Hev) as [Hstep Hkeys'].
  cbn [Js.run]. rewrite Hstep. by apply IH.
Qed.

Lemma embedProvider_mount children :
  embedProvider (mount children) = Js.mount children.
Proof.
  unfold embedProvider, mount, Js.mount. simpl.
  by rewrite embed_initialState.
Qed.

Lemma mounted_run_refines children evs :
  forallb namesOwn evs = true ->
  Js.run (Js.mount children) evs
  = Some (embedProvider (run (mount children) evs))
  /\ ownKeys (state (run (mount children) evs)).
Proof.
  intros Hevs. rewrite <- embedProvider_mount.
  apply run_refines; [apply ownKeys_initialState|done].
Qed.

Lemma cleanupEffect_mounted children evs now :
  cleanupEffect now (run (mount children) evs) = run (mount children) evs.
Proof.
  set (p := run (mount children) evs).
  assert (Hwf : wellFormed p) by apply wellFormed_run, wellFormed_mount.
  assert (Hall : forall tid task,
             tasks (state p) !! tid = Some task ->
             Task.index task <= currentIndex p).
  { intros tid task Hl. by destruct (wf_tasks p Hwf tid task Hl) as [_ [_ ?]]. }
  unfold cleanupEffect, dispatch. simpl.
  rewrite (filteredTasks_all _ _ Hall).
  rewrite (list_filter_all _ _ (wf_roots p Hwf)).
  by destruct p as [c [t r d] i r'].
Qed.

Lemma step_without_registration p ev :
  registers ev = false ->
  state p = initialState -> currentIndex p = 0 ->
  state (step p ev) = initialState /\ currentIndex (step p ev) = 0.
Proof.
  intros Hev Hst Hidx.
  destruct ev as [random name parentId|now id|now id|now id err
                 |id parentId| |]; simpl in *; try done;
    rewrite ?Hst; simpl; rewrite ?lookup_empty; try done.
  assert (Hnot : isComplete (state p) (currentIndex p) = false).
  { apply not_true_is_false. rewrite isComplete_true.
    intros [(tid & task & Hl & _) _]. rewrite Hst in Hl.
    by destruct (lookup_empty_Some (M:=gmap string) tid task). }
  split.
  - unfold progressionEffect.
    by destruct (isCurrentChildComplete p (currentIndex p)).
  - rewrite progressionEffect_currentIndex by lia. by rewrite Hnot.
Qed.

Lemma run_without_registration p evs :
  existsb registers evs = false ->
  state p = initialState -> currentIndex p = 0 ->
  state (run p evs) = initialState /\ currentIndex (run p evs) = 0.
Proof.
  revert p. induction evs as [|ev evs IH]; intros p Hevs Hst Hidx; [done|].
  simpl in Hevs. apply orb_false_iff in Hevs as [Hev Hevs].
  destruct (step_without_registration p ev Hev Hst Hidx) as [Hst' Hidx'].
  simpl. by apply IH.
Qed.

End ProviderObject.

(** X29. The provider of task records is the provider over the tasks
    object. For events that hand [start], [complete], [fail] and
    [setParent] no name every object inherits, a mounted provider never
    sees its reducer throw, and after the events its tasks object holds
    under each key the fields of the task record of the store, with the
    same [rootTaskIds], [completedTaskIds], [currentIndex] and completion
    ref; and no inherited name is a key or a root id. *)
Theorem provider_is_over_the_tasks_object
    (children : list ReactElement) (evs : list Event)
    (Hevs : forallb namesOwn evs = true) :
  Js.run (Js.mount children) evs
  = Some (embedProvider (run (mount children) evs))
  /\ ownKeys (state (run (mount children) evs)).
Proof.
  rewrite <- embedProvider_mount.
  apply run_refines; [|exact Hevs].
  split; simpl.
  - intros id [task Hl]. by rewrite lookup_empty in Hl.
  - intros id Hin. by apply elem_of_nil in Hin.
Qed.

Lemma provider_is_over_the_tasks_object_witness :
  Js.run (Js.mount [Step "A"; Step "B"])
         [RegisterTask "k3j9x2a" "FileReader: a" None;
          StartTask 100 "0-k3j9x2a";
          CompleteTask 105 "0-k3j9x2a";
          RunProgression;
          RunCleanup;
          RegisterTask "q8w1e5r" "FileReader: b" None]
  = Some (embedProvider twoSteps).
Proof.
  apply (provider_is_over_the_tasks_object [Step "A"; Step "B"]
           [RegisterTask "k3j9x2a" "FileReader: a" None;
            StartTask 100 "0-k3j9x2a";
            CompleteTask 105 "0-k3j9x2a";
            RunProgression;
            RunCleanup;
            RegisterTask "q8w1e5r" "FileReader: b" None]).
  vm_compute. reflexivity.
Defined.

(** X9. The cleanup effect never removes anything, as long as [start],
    [complete], [fail] and [setParent] are handed no name every object
    inherits. Tasks are registered under the current index and the index
    never goes down, so no task of a mounted provider is ever ahead of
    [currentIndex]: the [CLEANUP_TASKS] the effect dispatches leaves the
    store, and the provider, as they were. *)
Theorem cleanup_effect_changes_nothing
    (children : list ReactElement) (evs : list Event) (now : Z)
    (Hevs : forallb namesOwn evs = true) :
  exists q,
    Js.run (Js.mount children) evs = Some q
    /\ (forall tid f,
          Js.tasks (Js.state q) !! tid = Some f ->
          exists i, Js.index f = Some i /\ i <= Js.currentIndex q)
    /\ Js.cleanupEffect now q = Some q.
Proof.
  destruct (mounted_run_refines children evs Hevs) as [Hrun Hkeys].
  set (p := run (mount children) evs) in *.
  assert (Hwf : wellFormed p) by apply wellFormed_run, wellFormed_mount.
  exists (embedProvider p). split; [done|]. split.
  - intros tid f Hl. simpl in Hl. rewrite lookup_fmap in Hl.
    destruct (tasks (state p) !! tid) as [task|] eqn:E; [|done].
    injection Hl as <-. exists (Task.index task). split; [done|].
    by destruct (wf_tasks p Hwf tid task E) as [_ [_ ?]].
  - unfold Js.cleanupEffect.
    change (Js.currentIndex (embedProvider p)) with (currentIndex p).
    rewrite dispatch_embed by done.
    fold (cleanupEffect now p). subst p.
    by rewrite cleanupEffect_mounted.
Qed.

Lemma cleanup_effect_changes_nothing_witness :
  exists q,
    Js.run (Js.mount [Step "A"; Step "B"])
           [RegisterTask "k3j9x2a" "FileReader: a" None;
            StartTask 100 "0-k3j9x2a";
            CompleteTask 105 "0-k3j9x2a";
            RunProgression;
            RegisterTask "q8w1e5r" "FileReader: b" None]
    = Some q
    /\ (forall tid f,
          Js.tasks (Js.state q) !! tid = Some f ->
          exists i, Js.index f = Some i /\ i <= Js.currentIndex q)
    /\ Js.cleanupEffect 0 q = Some q.
Proof.
  apply (cleanup_effect_changes_nothing [Step "A"; Step "B"]
           [RegisterTask "k3j9x2a" "FileReader: a" None;
            StartTask 100 "0-k3j9x2a";
            CompleteTask 105 "0-k3j9x2a";
            RunProgression;
            RegisterTask "q8w1e5r" "FileReader: b" None]
           0).
  vm_compute. reflexivity.
Defined.

(** X10. Steps are run one after the other. As long as [start],
    [complete], [fail] and [setParent] are handed no name every object
    inherits, every task of a mounted provider is stored under its own id,
    belongs to a step between 0 and the current one, and, if it belongs to
    an earlier step, has been completed (its id is in
    [completedTaskIds]). *)
Theorem earlier_steps_are_completed
    (children : list ReactElement) (evs : list Event)
    (Hevs : forallb namesOwn evs = true) :
  exists q,
    Js.run (Js.mount children) evs = Some q
    /\ (forall tid f,
          Js.tasks (Js.state q) !! tid = Some f ->
          Js.id f = Some tid
          /\ exists i,
               Js.index f = Some i
               /\ 0 <= i <= Js.currentIndex q
               /\ (i < Js.currentIndex q ->
                   tid ∈ Js.completedTaskIds (Js.state q))).
Proof.
  destruct (mounted_run_refines children evs Hevs) as [Hrun Hkeys].
  set (p := run (mount children) evs) in *.
  assert (Hwf : wellFormed p) by apply wellFormed_run, wellFormed_mount.
  exists (embedProvider p). split; [done|].
  intros tid f Hl. simpl in Hl. rewrite lookup_fmap in Hl.
  destruct (tasks (state p) !! tid) as [task|] eqn:E; [|done].
  injection Hl as <-.
  destruct (wf_tasks p Hwf tid task E) as [Hkey Hrange].
  split; [simpl; by rewrite Hkey|].
  exists (Task.index task). split; [done|]. split; [exact Hrange|].
  intros Hlt. by apply (wf_earlier p Hwf tid task).
Qed.

Lemma earlier_steps_are_completed_witness :
  exists q,
    Js.run (Js.mount [Step "A"; Step "B"])
           [RegisterTask "k3j9x2a" "FileReader: a" None;
            StartTask 100 "0-k3j9x2a";
            CompleteTask 105 "0-k3j9x2a";
            RunProgression;
            RunCleanup;
            RegisterTask "q8w1e5r" "FileReader: b" None]
    = Some q
    /\ (forall tid f,
          Js.tasks (Js.state q) !! tid = Some f ->
          Js.id f = Some tid
          /\ exists i,
               Js.index f = Some i
               /\ 0 <= i <= Js.currentIndex q
               /\ (i < Js.currentIndex q ->
                   tid ∈ Js.completedTaskIds (Js.state q))).
Proof.
  apply (earlier_steps_are_completed [Step "A"; Step "B"]
           [RegisterTask "k3j9x2a" "FileReader: a" None;
            StartTask 100 "0-k3j9x2a";
            CompleteTask 105 "0-k3j9x2a";
            RunProgression;
            RunCleanup;
            RegisterTask "q8w1e5r" "FileReader: b" None]).
  vm_compute. reflexivity.
Defined.

(** X12. Nothing happens without a registration. As long as no
    [registerTask] is called and [start], [complete], [fail] and
    [setParent] are handed no name every object inherits, every context
    call is a no-op on the empty store and the effects find nothing to do:
    the store stays the initial one and [currentIndex] stays 0. *)
Theorem nothing_without_registration
    (children : list ReactElement) (evs : list Event)
    (Hevs : existsb registers evs = false)
    (Hnames : forallb namesOwn evs = true) :
  exists q,
    Js.run (Js.mount children) evs = Some q
    /\ Js.state q = Js.initial
    /\ Js.currentIndex q = 0.
Proof.
  destruct (mounted_run_refines children evs Hnames) as [Hrun _].
  destruct (run_without_registration (mount children) evs Hevs)
    as [Hst Hidx]; [done|done|].
  exists (embedProvider (run (mount children) evs)). split; [done|].
  simpl. rewrite Hst, Hidx. split; [apply embed_initialState|done].
Qed.

Lemma nothing_without_registration_witness :
  exists q,
    Js.run (Js.mount [Step "A"; Step "B"])
           [RunCleanup; RunProgression; StartTask 1 "0-k3j9x2a";
            CompleteTask 2 "0-k3j9x2a"; RunProgression; RunProgression;
            SetParent "0-k3j9x2a" "0-q8w1e5r"; RunProgression]
    = Some q
    /\ Js.state q = Js.initial
    /\ Js.currentIndex q = 0.
Proof.
  apply (nothing_without_registration [Step "A"; Step "B"]).
  - reflexivity.
  - vm_compute. reflexivity.
Defined.

(** ** Registration of the handle *)

(** X13. The registration effect registers at every run. React runs the
    cleanup of the effect, which empties the ref, before every re-run and
    at unmount, so whatever the ref held, the run that follows a cleanup
    calls [registerTask]: the ref receives a new id of the current step,
    which is never empty, the store gains a [pending] task under it with
    the name and parent id of that run, [useTask] shows it, and every other
    task stays in the store as it was, the one the ref named before the
    cleanup included: nothing unregisters it. *)
Theorem registration_at_every_run
    (random name : string) (parentId : option TaskId)
    (taskIdRef : option TaskId) (p : Provider) :
  let id := newTaskId (currentIndex p) random in
  let ran :=
    useTaskEffect random name parentId (useTaskCleanup taskIdRef) p in
  useTaskEffect random name parentId None p = ran
  /\ ran.1 = Some id
  /\ truthy ran.1 = true
  /\ tasks (state ran.2) !! id
     = Some (Task.mk id name pending None None None parentId []
                     (currentIndex p))
  /\ (forall tid, tid <> id ->
                  tasks (state ran.2) !! tid = tasks (state p) !! tid)
  /\ currentIndex ran.2 = currentIndex p
  /\ completedTaskIds (state ran.2) = completedTaskIds (state p)
  /\ useTaskView ran.1 (state ran.2) = (id, Some pending, None).
Proof.
  intros id ran.
  assert (Hran : ran
               = (Some id,
                  dispatch 0
                    (REGISTER_TASK
                       (newTask (currentIndex p) random name parentId)) p))
    by done.
  pose proof (newTaskId_truthy (currentIndex p) random) as Htruthy.
  fold id in Htruthy.
  rewrite Hran. cbn [fst snd].
  assert (Hl : tasks
                 (state
                    (dispatch 0
                       (REGISTER_TASK
                          (newTask (currentIndex p) random name parentId)) p))
               !! id
               = Some (newTask (currentIndex p) random name parentId)).
  { simpl. apply lookup_insert_eq. }
  split_and!; try done.
  - intros tid Hne. simpl. by rewrite lookup_insert_ne.
  - unfold useTaskView. rewrite Htruthy.
    cbv [refId default from_option Datatypes.id getTask]. by rewrite Hl.
Qed.

(** ** [Fetch] and the HTTP status *)

Section FetchStatus.

Context {Data : Type}.
Variable truthyData : Data -> bool.

(** X18. [Fetch] takes an HTTP error for a success. The body never looks
    at [response.ok] or [response.status] for its result: two responses
    with the same body give the same run, whatever their status. So
    whenever the response body parses and [onSuccess], if given, returns,
    the state receives the data with no error, [FetchError] does not
    render, the body resolves and [execute] dispatches [complete], for a
    response that is not [ok] as for one that is. *)
Theorem http_status_is_ignored
    (response : Fetch.Response) (ok' : bool) (status' : Z)
    (onSuccess : option (Data -> Outcome unit))
    (onError : option (Error -> Outcome unit))
    (st : Fetch.FetchState) :
  let r := Fetch.body (Returned response) onSuccess onError st in
  Fetch.body
    (Returned {| Fetch.ok := ok'; Fetch.status := status';
                 Fetch.json := Fetch.json response |})
    onSuccess onError st
  = r
  /\ (forall (d : Data) (id : TaskId) (later : option TaskId),
        truthy (Some id) = true ->
        Fetch.json response = Returned d ->
        (forall callback, onSuccess = Some callback ->
                          callback d = Returned tt) ->
        stateOf r
        = {| Fetch.data := Some d; Fetch.error := None;
             Fetch.loading := false |}
        /\ promiseOf r = Some (Fulfilled JsUndefined)
        /\ (execute (Some id) (promiseOf r) later).1
           = [Dispatched (START_TASK id); Awaited;
              Dispatched (COMPLETE_TASK (refId later))]
        /\ Fetch.FetchError (stateOf r) = false
        /\ Fetch.FetchSuccess truthyData (stateOf r) = truthyData d).
Proof.
  intros r. split; [done|].
  intros d id later Hid Hjson HonSuccess.
  assert (Hr : r = Done {| Fetch.data := Some d; Fetch.error := None;
                           Fetch.loading := false |} JsUndefined).
  { subst r. unfold Fetch.body. run_async. rewrite Hjson.
    destruct onSuccess as [callback|]; [|done].
    by rewrite (HonSuccess callback eq_refl). }
  rewrite Hr. cbn [stateOf promiseOf]. unfold execute. rewrite Hid.
  split_and!; try done.
  unfold Fetch.FetchSuccess. cbn. by rewrite !andb_true_r.
Qed.

End FetchStatus.

Lemma http_status_is_ignored_witness :
  let response :=
    {| Fetch.ok := false; Fetch.status := 500;
       Fetch.json := Returned "Internal Server Error" |} in
  let r := Fetch.body (Returned response) None None Fetch.initial in
  Fetch.body
    (Returned {| Fetch.ok := true; Fetch.status := 200;
                 Fetch.json := Returned "Internal Server Error" |})
    None None Fetch.initial
  = r
  /\ Fetch.data (stateOf r) = Some "Internal Server Error"
  /\ Fetch.FetchError (stateOf r) = false
  /\ (execute (Some "0-k3j9x2a") (promiseOf r) (Some "0-k3j9x2a")).1
     = [Dispatched (START_TASK "0-k3j9x2a"); Awaited;
        Dispatched (COMPLETE_TASK "0-k3j9x2a")].
Proof.
  destruct (http_status_is_ignored (fun _ : string => true)
              {| Fetch.ok := false; Fetch.status := 500;
                 Fetch.json := Returned "Internal Server Error" |}
              true 200 None None Fetch.initial)
    as [Hsame Hrun].
  destruct (Hrun "Internal Server Error" "0-k3j9x2a" (Some "0-k3j9x2a"))
    as (Hst & _ & Hexec & Herr & _).
  - reflexivity.
  - reflexivity.
  - intros callback H. discriminate.
  - split; [exact Hsame|]. split; [by rewrite Hst|].
    split; [exact Herr|exact Hexec].
Defined.

(** ** [formatTable] *)

Section Table.

Implicit Types (val sep : list N) (widths : list nat)
  (values parts : list (list N)).








End Table.


